(** * Timer: a polled software-timer table (src/Timer.cpp)

    A shallow embedding of [Timer.cpp] and the properties of its event table.

    Conventions of the embedding.
    - C integers are [Z]; the conversions the code performs are written out
      ([to_int8] for every value that lands in an [int8_t]).
    - The event table [_events] is a [list Event]; an access outside the
      table, and a signed overflow, have no defined behaviour in C++ and
      make the call [Undefined].
    - The two [for] loops run on fuel, one unit per value an [int8_t] can
      take; [OutOfFuel] is kept apart from [Undefined] and is shown never
      to happen.
    - The board is a [World]: the millisecond clock (the successive readings
      of [millis()]), the trace of pin writes and callback invocations, and
      the heap blocks handed out by [malloc].
    - [Timer.h] and [Event.h] are not part of the sources.  The macros they
      define are parameters of the development, and [Event::update], which
      [Timer::update] calls on every occupied slot, is modelled from the
      specification.
    - A callback is known by its address; what it does to the timer when
      invoked (registering and stopping timers) is a parameter,
      [callback_script]. *)

From stdpp Require Import base numbers list.

Local Open Scope Z_scope.

(** ** Outcomes *)

Inductive outcome (A : Type) : Type :=
| Done (a : A)
| Undefined
| OutOfFuel.

Arguments Done {A} a.
Arguments Undefined {A}.
Arguments OutOfFuel {A}.

Definition bind {A B : Type} (m : outcome A) (k : A -> outcome B) : outcome B :=
  match m with
  | Done a => k a
  | Undefined => Undefined
  | OutOfFuel => OutOfFuel
  end.

Notation "'do' x <- m 'in' k" := (bind m (fun x => k))
  (at level 10, x name, m at level 100, k at level 200).
Notation "'do' ' p <- m 'in' k" := (bind m (fun x => match x with p => k end))
  (at level 10, p pattern, m at level 100, k at level 200).

(** ** Machine integers *)

(** Conversion to [int8_t] (two's complement, as avr-gcc and C++20 do it). *)
Definition to_int8 (z : Z) : Z := (z + 128) mod 256 - 128.

(** [unsigned long] on Arduino boards: 32 bits. *)
Definition ULONG_MODULUS : Z := 2 ^ 32.

Definition to_ulong (z : Z) : Z := z mod ULONG_MODULUS.

(** ** The event record *)

(** Modelled from the spec: [Event.h] is missing.  The fields are those
    [Timer.cpp] assigns, typed after the values assigned to them and the
    data model of the specification (section 3). *)
Record Event : Type := mkEvent {
  eventType : Z;       (* kind of the slot *)
  period : Z;          (* unsigned long *)
  repeatCount : Z;     (* int *)
  pin : Z;             (* uint8_t *)
  pinState : Z;        (* uint8_t *)
  callback : Z;        (* void ( * )(void * ); 0 is the null pointer *)
  lastEventTime : Z;   (* unsigned long *)
  count : Z;           (* unsigned *)
  context : Z          (* void *; 0 is the null pointer *)
}.

Definition set_eventType (v : Z) (e : Event) : Event :=
  mkEvent v (period e) (repeatCount e) (pin e) (pinState e) (callback e)
          (lastEventTime e) (count e) (context e).
Definition set_period (v : Z) (e : Event) : Event :=
  mkEvent (eventType e) v (repeatCount e) (pin e) (pinState e) (callback e)
          (lastEventTime e) (count e) (context e).
Definition set_repeatCount (v : Z) (e : Event) : Event :=
  mkEvent (eventType e) (period e) v (pin e) (pinState e) (callback e)
          (lastEventTime e) (count e) (context e).
Definition set_pin (v : Z) (e : Event) : Event :=
  mkEvent (eventType e) (period e) (repeatCount e) v (pinState e) (callback e)
          (lastEventTime e) (count e) (context e).
Definition set_pinState (v : Z) (e : Event) : Event :=
  mkEvent (eventType e) (period e) (repeatCount e) (pin e) v (callback e)
          (lastEventTime e) (count e) (context e).
Definition set_callback (v : Z) (e : Event) : Event :=
  mkEvent (eventType e) (period e) (repeatCount e) (pin e) (pinState e) v
          (lastEventTime e) (count e) (context e).
Definition set_lastEventTime (v : Z) (e : Event) : Event :=
  mkEvent (eventType e) (period e) (repeatCount e) (pin e) (pinState e)
          (callback e) v (count e) (context e).
Definition set_count (v : Z) (e : Event) : Event :=
  mkEvent (eventType e) (period e) (repeatCount e) (pin e) (pinState e)
          (callback e) (lastEventTime e) v (context e).
Definition set_context (v : Z) (e : Event) : Event :=
  mkEvent (eventType e) (period e) (repeatCount e) (pin e) (pinState e)
          (callback e) (lastEventTime e) (count e) v.

(** Modelled from the spec: [EVENT_NONE] is a macro of the missing [Event.h].
    Section 4.1 describes the [memset] of the table with [EVENT_NONE] as
    zero/None-initialisation, so [EVENT_NONE] is the zero byte. *)
Definition EVENT_NONE : Z := 0.

(** A slot after [memset(_events, EVENT_NONE, ...)]: every byte is
    [EVENT_NONE], hence every field is 0. *)
Definition memset_Event : Event :=
  mkEvent EVENT_NONE 0 0 0 0 0 0 0 0.

(** ** The board *)

Inductive IO : Type :=
| DigitalWrite (pin value : Z)        (* digitalWrite(pin, value) *)
| Invoke (callback context : Z).      (* ( *callback)(context) *)

Record World : Type := mkWorld {
  clock : nat -> Z;      (* the k-th reading of the millisecond counter *)
  reads : nat;           (* readings consumed so far *)
  trace : list IO;       (* outputs, oldest first *)
  next_block : nat;      (* next heap block malloc hands out *)
  live : list nat;       (* heap blocks allocated and not released *)
  released : list nat    (* blocks passed to free, oldest first *)
}.

(** [millis()]: the next reading of the clock, an [unsigned long]. *)
Definition millis (w : World) : Z * World :=
  (to_ulong (clock w (reads w)),
   mkWorld (clock w) (S (reads w)) (trace w) (next_block w) (live w) (released w)).

Definition digitalWrite (pin value : Z) (w : World) : World :=
  mkWorld (clock w) (reads w) (trace w ++ [DigitalWrite pin value])
          (next_block w) (live w) (released w).

Definition invoke (cb ctx : Z) (w : World) : World :=
  mkWorld (clock w) (reads w) (trace w ++ [Invoke cb ctx])
          (next_block w) (live w) (released w).

(** A board just switched on whose clock reads [ms] at every reading. *)
Definition board_at (ms : Z) : World :=
  mkWorld (fun _ => ms) 0 [] 0 [] [].

(** Sample tables, for the kinds as the library ships them
    ([EVENT_EVERY] is 1): a periodic slot, a table of three slots whose
    middle one is free, a table of two occupied slots and one of 128. *)
Definition busy_slot : Event := mkEvent 1 1000 (-1) 0 0 7 0 0 0.

(** [malloc]: a fresh block (allocation is taken to succeed). *)
Definition malloc (w : World) : nat * World :=
  (next_block w,
   mkWorld (clock w) (reads w) (trace w) (S (next_block w))
           (next_block w :: live w) (released w)).

Definition free (b : nat) (w : World) : World :=
  mkWorld (clock w) (reads w) (trace w) (next_block w)
          (filter (fun b' => b' <> b) (live w)) (released w ++ [b]).

(** ** The timer object *)

(** Where [_events] points: the function-local static array of the default
    constructor (one array for the whole program; a single timer is
    modelled), or a heap block. *)
Inductive Storage : Type :=
| StaticArray
| HeapBlock (b : nat).

(** [_events] is split in two: the table it points to and where that table
    lives.  [_numberOfEvents] holds the constructor's [byte] argument. *)
Record Timer : Type := mkTimer {
  _numberOfEvents : Z;
  _events : list Event;
  _events_storage : Storage
}.

(** The table has as many slots as the object says. *)
Definition wf (t : Timer) : Prop :=
  Z.of_nat (length (_events t)) = _numberOfEvents t.

(** [_events[i]] read. *)
Definition load (t : Timer) (i : Z) : outcome Event :=
  if 0 <=? i then
    match _events t !! Z.to_nat i with
    | Some e => Done e
    | None => Undefined
    end
  else Undefined.

(** [_events[i].field = ...]: the slot at [i] rewritten by [f]. *)
Definition store (t : Timer) (i : Z) (f : Event -> Event) : outcome Timer :=
  do e <- load t i in
  Done (mkTimer (_numberOfEvents t) (<[Z.to_nat i := f e]> (_events t))
                (_events_storage t)).

Definition table_with_gap : Timer :=
  mkTimer 3 [busy_slot; memset_Event; busy_slot] StaticArray.

Definition table_of_two : Timer :=
  mkTimer 2 [busy_slot; busy_slot] StaticArray.

Definition table_of_128 : Timer :=
  mkTimer 128 (replicate 128 busy_slot) StaticArray.

(** One unit of fuel per value of an [int8_t] loop counter. *)
Definition INT8_VALUES : nat := 256.

Section TimerCpp.

(** Macros of the missing headers. *)
Variables EVENT_EVERY EVENT_OSCILLATE : Z.
Variables NO_TIMER_AVAILABLE TIMER_NOT_AN_EVENT : Z.
Variable DEFAULT_NUMBER_OF_EVENTS : Z.
(** Width of [int] on the board (16 on AVR, 32 on ARM). *)
Variable INT_BITS : Z.

Definition in_int (z : Z) : bool :=
  (- 2 ^ (INT_BITS - 1) <=? z) && (z <? 2 ^ (INT_BITS - 1)).

(** [a * b] on [int]: overflow is undefined. *)
Definition int_mul (a b : Z) : outcome Z :=
  if in_int (a * b) then Done (a * b) else Undefined.

(** *** Construction and destruction (Timer.cpp 27-49) *)

Definition Timer_void (w : World) : Timer * World :=
  (mkTimer DEFAULT_NUMBER_OF_EVENTS
           (replicate (Z.to_nat DEFAULT_NUMBER_OF_EVENTS) memset_Event)
           StaticArray,
   w).

Definition Timer_byte (numberOfEvents : Z) (w : World) : Timer * World :=
  let (b, w1) := malloc w in
  (mkTimer numberOfEvents
           (replicate (Z.to_nat numberOfEvents) memset_Event)
           (HeapBlock b),
   w1).

Definition Timer_destroy (t : Timer) (w : World) : outcome World :=
  if negb (_numberOfEvents t =? DEFAULT_NUMBER_OF_EVENTS) then
    match _events_storage t with
    | HeapBlock b => Done (free b w)
    | StaticArray => Undefined          (* free() of an object not from malloc *)
    end
  else Done w.

(** *** findFreeEventIndex (Timer.cpp 142-152) *)

Fixpoint findFree_loop (fuel : nat) (t : Timer) (i : Z) : outcome Z :=
  match fuel with
  | O => OutOfFuel
  | S fuel' =>
      if i <? _numberOfEvents t then
        do e <- load t i in
        if eventType e =? EVENT_NONE then Done i
        else findFree_loop fuel' t (to_int8 (i + 1))
      else Done (to_int8 NO_TIMER_AVAILABLE)
  end.

Definition findFreeEventIndex (t : Timer) : outcome Z :=
  findFree_loop INT8_VALUES t 0.

(** *** Registration (Timer.cpp 51-120) *)

Definition State : Type := Timer * World.

Definition every (period callback repeatCount context : Z) (s : State)
  : outcome (Z * State) :=
  let (t, w) := s in
  do i <- findFreeEventIndex t in
  if i =? NO_TIMER_AVAILABLE then Done (to_int8 NO_TIMER_AVAILABLE, (t, w))
  else
    let (now, w1) := millis w in
    do t1 <- store t i (fun e =>
            set_context context
              (set_count 0
                 (set_lastEventTime now
                    (set_callback callback
                       (set_repeatCount repeatCount
                          (set_period period
                             (set_eventType EVENT_EVERY e))))))) in
    Done (i, (t1, w1)).

Definition every3 (period callback context : Z) (s : State)
  : outcome (Z * State) :=
  every period callback (-1) context s.

Definition after (period callback context : Z) (s : State)
  : outcome (Z * State) :=
  every period callback 1 context s.

Definition oscillate (pin period startingValue repeatCount : Z) (s : State)
  : outcome (Z * State) :=
  let (t, w) := s in
  do i <- findFreeEventIndex t in
  if i =? NO_TIMER_AVAILABLE then Done (to_int8 NO_TIMER_AVAILABLE, (t, w))
  else
    let w1 := digitalWrite pin startingValue w in
    do transitions <- int_mul repeatCount 2 in
    let (now, w2) := millis w1 in
    do t1 <- store t i (fun e =>
            set_callback 0
              (set_context 0
                 (set_count 0
                    (set_lastEventTime now
                       (set_repeatCount transitions
                          (set_pinState startingValue
                             (set_period period
                                (set_pin pin
                                   (set_eventType EVENT_OSCILLATE e))))))))) in
    Done (i, (t1, w2)).

Definition oscillate3 (pin period startingValue : Z) (s : State)
  : outcome (Z * State) :=
  oscillate pin period startingValue (-1) s.

Definition pulse (pin period startingValue : Z) (s : State)
  : outcome (Z * State) :=
  oscillate pin period startingValue 1 s.

Definition pulseImmediate (pin period pulseValue : Z) (s : State)
  : outcome (Z * State) :=
  do '(id, (t, w)) <- oscillate pin period pulseValue 1 s in
  if (0 <=? id) && (id <? _numberOfEvents t) then
    do t1 <- store t id (set_repeatCount 1) in
    Done (id, (t1, w))
  else Done (id, (t, w)).

(** *** stop (Timer.cpp 122-129) *)

(** The parameter is an [int8_t]: whatever the caller passes is converted
    to it, and the body sees only the converted value [id8]. *)
Definition stop (id : Z) (t : Timer) : outcome (Z * Timer) :=
  let id8 := to_int8 id in
  if (0 <=? id8) && (id8 <? _numberOfEvents t) then
    do t1 <- store t id8 (set_eventType EVENT_NONE) in
    Done (to_int8 TIMER_NOT_AN_EVENT, t1)
  else Done (id8, t).

(** *** Event::update *)

(** Modelled from the spec: [Event::update] lives in the missing
    [Event.cpp].  Section 4.1, dispatch step 1: the time since the slot last
    fired, by subtraction on [unsigned long]. *)
Definition elapsed (now last : Z) : Z := (now - last) mod ULONG_MODULUS.

(** Modelled from the spec: the toggle of dispatch step 3, [!pinState] on a
    [uint8_t]. *)
Definition toggle (v : Z) : Z := if v =? 0 then 1 else 0.

(** Modelled from the spec: the increment of [count] in dispatch step 3, on
    an unsigned counter as wide as [int]. *)
Definition count_succ (c : Z) : Z := (c + 1) mod 2 ^ INT_BITS.

(** Modelled from the spec: dispatch step 2, whether the period of the
    slot has elapsed at the reading [now]. *)
Definition Event_due (now : Z) (e : Event) : bool :=
  negb (elapsed now (lastEventTime e) <? period e).

(** Modelled from the spec: dispatch step 3, the action of a due slot by
    kind, as far as the slot itself and the board go.  A periodic slot calls
    its callback, unless none was set; an oscillating slot toggles its pin;
    either way the firing is counted.  (What the callback does to the timer
    is in [run_callback] and [Event_action_at] below.) *)
Definition Event_action (e : Event) (w : World) : Event * World :=
  if eventType e =? EVENT_EVERY then
    (set_count (count_succ (count e)) e,
     if callback e =? 0 then w else invoke (callback e) (context e) w)
  else if eventType e =? EVENT_OSCILLATE then
    let v := toggle (pinState e) in
    (set_count (count_succ (count e)) (set_pinState v e),
     digitalWrite (pin e) v w)
  else (e, w).

(** Modelled from the spec: dispatch step 3, the repeat count of a slot that
    has just fired.  A positive count is decremented and the slot retires
    when it reaches 0; a negative count (unbounded) is left alone. *)
Definition Event_countdown (e : Event) : Event :=
  if 0 <? repeatCount e then
    let e1 := set_repeatCount (repeatCount e - 1) e in
    if repeatCount e1 =? 0 then set_eventType EVENT_NONE e1 else e1
  else e.

(** Modelled from the spec: dispatch step 3, a due slot: it is rebased on
    [now], performs its action and counts down. *)
Definition Event_fire (now : Z) (e : Event) (w : World) : Event * World :=
  let (e1, w1) := Event_action (set_lastEventTime now e) w in
  (Event_countdown e1, w1).

(** Modelled from the spec: the dispatch of one slot, for a callback that
    leaves the timer alone.  The clock is read once.  A slot found with
    repeat count 0 at entry is retired without action (section 3: no such
    slot outlives a pass).  Otherwise a slot whose period has not elapsed
    is left as it is, and a due slot fires. *)
Definition Event_update (e : Event) (w : World) : Event * World :=
  let (now, w1) := millis w in
  if repeatCount e =? 0 then (set_eventType EVENT_NONE e, w1)
  else if Event_due now e then Event_fire now e w1
  else (e, w1).

(** The pass over a table, slot by slot in index order, for callbacks that
    leave the timer alone. *)
Fixpoint update_events (l : list Event) (w : World) : list Event * World :=
  match l with
  | [] => ([], w)
  | e :: l' =>
      let (e1, w1) :=
        if negb (eventType e =? EVENT_NONE) then Event_update e w else (e, w) in
      let (l1, w2) := update_events l' w1 in
      (e1 :: l1, w2)
  end.

(** *** Sequences of registrations *)

Inductive Registration : Type :=
| REvery (period callback repeatCount context : Z)
| REvery3 (period callback context : Z)
| RAfter (period callback context : Z)
| ROscillate (pin period startingValue repeatCount : Z)
| ROscillate3 (pin period startingValue : Z)
| RPulse (pin period startingValue : Z)
| RPulseImmediate (pin period pulseValue : Z).

Definition register (r : Registration) (s : State) : outcome (Z * State) :=
  match r with
  | REvery p cb rc ctx => every p cb rc ctx s
  | REvery3 p cb ctx => every3 p cb ctx s
  | RAfter p cb ctx => after p cb ctx s
  | ROscillate pn p v rc => oscillate pn p v rc s
  | ROscillate3 pn p v => oscillate3 pn p v s
  | RPulse pn p v => pulse pn p v s
  | RPulseImmediate pn p v => pulseImmediate pn p v s
  end.

Fixpoint register_all (rs : list Registration) (s : State)
  : outcome (list Z * State) :=
  match rs with
  | [] => Done ([], s)
  | r :: rs' =>
      do '(i, s1) <- register r s in
      do '(ids, s2) <- register_all rs' s1 in
      Done (i :: ids, s2)
  end.

(** *** Callbacks *)

(** What a callback may do to the timer while [update] runs (specification,
    section 5): register timers and stop timers. *)
Inductive Action : Type :=
| CallRegister (r : Registration)
| CallStop (id : Z).

(** Sample callbacks: none calls the timer; only the callback at address 7
    does, with the calls [acts]. *)
Definition no_calls : Z -> Z -> Timer * World -> list Action :=
  fun _ _ _ => [].

Definition callback_7_calls (acts : list Action)
  : Z -> Z -> Timer * World -> list Action :=
  fun cb _ _ => if cb =? 7 then acts else [].

(** The calls that the callback at address [callback] makes on the timer
    when it is invoked with [context], in order; they may depend on the
    state in which it is invoked.  Any behaviour is allowed: the script of
    each callback is a parameter. *)
Variable callback_script : Z -> Z -> State -> list Action.

Fixpoint run_script (acts : list Action) (s : State) : outcome State :=
  match acts with
  | [] => Done s
  | CallRegister r :: rest =>
      do '(_, s1) <- register r s in
      run_script rest s1
  | CallStop id :: rest =>
      let (t, w) := s in
      do '(_, t1) <- stop id t in
      run_script rest (t1, w)
  end.

(** [( *callback)(context)]: the call is recorded on the board, then the
    callback does what its script says. *)
Definition run_callback (cb ctx : Z) (s : State) : outcome State :=
  let (t, w) := s in
  let s1 := (t, invoke cb ctx w) in
  run_script (callback_script cb ctx s1) s1.

(** The repeat count a registration stores in the slot it claims
    (Timer.cpp 58, 68, 73, 86, 96, 105, 118). *)
Definition stored_count (r : Registration) : Z :=
  match r with
  | REvery _ _ rc _ => rc
  | REvery3 _ _ _ => -1
  | RAfter _ _ _ => 1
  | ROscillate _ _ _ rc => rc * 2
  | ROscillate3 _ _ _ => -1 * 2
  | RPulse _ _ _ => 1 * 2
  | RPulseImmediate _ _ _ => 1
  end.

(** A call that does not register a timer with repeat count 0. *)
Definition registers_nonzero (a : Action) : Prop :=
  match a with
  | CallRegister r => stored_count r <> 0
  | CallStop _ => True
  end.

(** A call that is not a registration. *)
Definition only_stops (a : Action) : Prop :=
  match a with
  | CallRegister _ => False
  | CallStop _ => True
  end.

(** *** Event::update, in place *)

(** Modelled from the spec: the action of the due slot [_events[i]], on the
    table.  The kind and the callback are read before the call; the
    callback may change any slot, this one included, and the firing is then
    counted in the slot as the callback left it. *)
Definition Event_action_at (i : Z) (s : State) : outcome State :=
  let (t, w) := s in
  do e <- load t i in
  if eventType e =? EVENT_EVERY then
    do '(t1, w1) <- (if callback e =? 0 then Done (t, w)
                     else run_callback (callback e) (context e) (t, w)) in
    do t2 <- store t1 i (fun e' => set_count (count_succ (count e')) e') in
    Done (t2, w1)
  else if eventType e =? EVENT_OSCILLATE then
    let v := toggle (pinState e) in
    do t1 <- store t i (fun e' =>
               set_count (count_succ (count e')) (set_pinState v e')) in
    Done (t1, digitalWrite (pin e) v w)
  else Done (t, w).

(** Modelled from the spec: dispatch step 3 on [_events[i]]: rebase, act,
    count down, each written to the slot in place. *)
Definition Event_fire_at (i now : Z) (s : State) : outcome State :=
  let (t, w) := s in
  do t1 <- store t i (set_lastEventTime now) in
  do '(t2, w2) <- Event_action_at i (t1, w) in
  do t3 <- store t2 i Event_countdown in
  Done (t3, w2).

(** Modelled from the spec: [_events[i].update()], the dispatch that
    [Timer::update] calls.  It is [Event_update] carried out on the slot in
    place, with a callback that may act on the timer. *)
Definition Event_update_at (i : Z) (s : State) : outcome State :=
  let (t, w) := s in
  do e <- load t i in
  let (now, w1) := millis w in
  if repeatCount e =? 0 then
    do t1 <- store t i (set_eventType EVENT_NONE) in
    Done (t1, w1)
  else if Event_due now e then Event_fire_at i now (t, w1)
  else Done (t, w1).

(** *** update (Timer.cpp 131-140) *)

Fixpoint update_loop (fuel : nat) (i : Z) (s : State) : outcome State :=
  match fuel with
  | O => OutOfFuel
  | S fuel' =>
      let (t, w) := s in
      if i <? _numberOfEvents t then
        do e <- load t i in
        if negb (eventType e =? EVENT_NONE) then
          do s1 <- Event_update_at i (t, w) in
          update_loop fuel' (to_int8 (i + 1)) s1
        else update_loop fuel' (to_int8 (i + 1)) (t, w)
      else Done (t, w)
  end.

Definition update (s : State) : outcome State :=
  update_loop INT8_VALUES 0 s.

(** Slot [j] of the table is occupied. *)
Definition occupied (t : Timer) (j : nat) : Prop :=
  exists e, _events t !! j = Some e /\ eventType e <> EVENT_NONE.

(** The first [k] slots are occupied and all the others are free: the shape
    of the table after [k] registrations and no stop or retirement. *)
Definition filled (k : nat) (t : Timer) : Prop :=
  wf t /\
  forall j e, _events t !! j = Some e ->
    (eventType e <> EVENT_NONE <-> (j < k)%nat).

(** No slot of the table is free. *)
Definition full (t : Timer) : Prop :=
  forall j e, _events t !! j = Some e -> eventType e <> EVENT_NONE.

(** The table [t'] is the table [t] with some slots rewritten: the same
    capacity, the same storage and as many slots. *)
Definition same_frame (t t' : Timer) : Prop :=
  _numberOfEvents t' = _numberOfEvents t /\
  _events_storage t' = _events_storage t /\
  length (_events t') = length (_events t).

(** A slot that is free or has firings left. *)
Definition settled_slot (e : Event) : Prop :=
  eventType e = EVENT_NONE \/ repeatCount e <> 0.

(** The slots below [k] are settled. *)
Definition settled (k : nat) (t : Timer) : Prop :=
  forall j e, (j < k)%nat -> _events t !! j = Some e -> settled_slot e.

(** Every free slot of [t] is the same in [t']. *)
Definition keeps_free (t t' : Timer) : Prop :=
  forall j e, _events t !! j = Some e -> eventType e = EVENT_NONE ->
    _events t' !! j = Some e.

(** Every free slot of [t] other than slot [i] is the same in [t']. *)
Definition keeps_free_but (i : nat) (t t' : Timer) : Prop :=
  forall j e, j <> i -> _events t !! j = Some e -> eventType e = EVENT_NONE ->
    _events t' !! j = Some e.

(** ** Properties *)

(** What the absent headers must provide for the code to make sense: the
    sentinels are [int8_t] values, "no timer available" is not an index, and
    [int] has at least the 16 bits the standard gives it.  That the two
    kinds mark a slot as occupied, and differ from each other, is stated
    where it is used. *)
Hypothesis NO_TIMER_AVAILABLE_range : -128 <= NO_TIMER_AVAILABLE < 0.
Hypothesis TIMER_NOT_AN_EVENT_range : -128 <= TIMER_NOT_AN_EVENT <= 127.
Hypothesis INT_BITS_min : 16 <= INT_BITS.

(** Every result below names the assumptions it rests on. *)
Set Default Proof Using "Type".

(** *** Conversions and table accesses *)

Lemma to_int8_id z : -128 <= z <= 127 -> to_int8 z = z.
Proof. intros Hz. unfold to_int8. rewrite Z.mod_small; lia. Qed.

Lemma to_int8_next (j : nat) :
  (j < 127)%nat -> to_int8 (Z.of_nat j + 1) = Z.of_nat (S j).
Proof. intros Hj. rewrite to_int8_id; lia. Qed.

Lemma to_int8_wraps : to_int8 (Z.of_nat 127 + 1) = -128.
Proof. reflexivity. Qed.

Lemma load_nat t (j : nat) :
  load t (Z.of_nat j) =
  match _events t !! j with Some e => Done e | None => Undefined end.
Proof.
  unfold load. destruct (Z.leb_spec 0 (Z.of_nat j)); [|lia].
  by rewrite Nat2Z.id.
Qed.

Lemma load_negative t i : i < 0 -> load t i = Undefined.
Proof. intros Hi. unfold load. destruct (Z.leb_spec 0 i); [lia|done]. Qed.

Lemma load_occupied t j :
  occupied t j ->
  exists e, load t (Z.of_nat j) = Done e /\ (eventType e =? EVENT_NONE) = false.
Proof.
  intros (e & He & Hk). exists e. rewrite load_nat, He.
  split; [done|]. by apply Z.eqb_neq.
Qed.

Lemma store_nat t (j : nat) f e :
  _events t !! j = Some e ->
  store t (Z.of_nat j) f =
  Done (mkTimer (_numberOfEvents t) (<[j := f e]> (_events t))
                (_events_storage t)).
Proof.
  intros He. unfold store. rewrite load_nat, He. cbn. by rewrite Nat2Z.id.
Qed.

Lemma wf_lookup t (j : nat) :
  wf t -> Z.of_nat j < _numberOfEvents t -> is_Some (_events t !! j).
Proof.
  unfold wf. intros Hwf Hj. apply lookup_lt_is_Some. lia.
Qed.

(** *** The scan of findFreeEventIndex *)

(** One iteration over an occupied slot: the read succeeds and the slot is
    passed over. *)
Ltac skip_occupied t j Hocc :=
  let e := fresh "e" in
  let Hload := fresh "Hload" in
  let Hkind := fresh "Hkind" in
  destruct (load_occupied t j) as (e & Hload & Hkind);
  [apply Hocc; lia|];
  rewrite Hload; cbn [bind]; rewrite Hkind.

(** The scan started at [j] stops at the first free slot [j + d]. *)
Lemma findFree_loop_found d : forall fuel t j e,
  (d < fuel)%nat -> (j + d <= 127)%nat ->
  Z.of_nat (j + d) < _numberOfEvents t ->
  _events t !! (j + d)%nat = Some e -> eventType e = EVENT_NONE ->
  (forall k, (j <= k < j + d)%nat -> occupied t k) ->
  findFree_loop fuel t (Z.of_nat j) = Done (Z.of_nat (j + d)).
Proof.
  induction d as [|d IH]; intros fuel t j e Hfuel Hj HN He Hfree Hocc;
    (destruct fuel as [|fuel]; [lia|]); cbn [findFree_loop].
  - rewrite Nat.add_0_r in *.
    destruct (Z.ltb_spec (Z.of_nat j) (_numberOfEvents t)); [|lia].
    rewrite load_nat, He. cbn [bind]. by rewrite Hfree.
  - destruct (Z.ltb_spec (Z.of_nat j) (_numberOfEvents t)); [|lia].
    skip_occupied t j Hocc. rewrite to_int8_next by lia.
    replace (j + S d)%nat with (S j + d)%nat in * by lia.
    eapply IH; eauto; [lia|]. intros k Hk. apply Hocc. lia.
Qed.

(** With at most 127 slots, the scan of a table without free slot at or
    after [j] runs off its end and reports the sentinel. *)
Lemma findFree_loop_exhausted d : forall fuel t j,
  (d < fuel)%nat -> (j + d <= 127)%nat ->
  Z.of_nat (j + d) = _numberOfEvents t ->
  (forall k, (j <= k < j + d)%nat -> occupied t k) ->
  findFree_loop fuel t (Z.of_nat j)
  = Done NO_TIMER_AVAILABLE.
Proof using NO_TIMER_AVAILABLE_range.
  induction d as [|d IH]; intros fuel t j Hfuel Hj HN Hocc;
    (destruct fuel as [|fuel]; [lia|]); cbn [findFree_loop].
  - rewrite Nat.add_0_r in *.
    destruct (Z.ltb_spec (Z.of_nat j) (_numberOfEvents t)); [lia|].
    by rewrite to_int8_id by lia.
  - destruct (Z.ltb_spec (Z.of_nat j) (_numberOfEvents t)); [|lia].
    skip_occupied t j Hocc. rewrite to_int8_next by lia.
    replace (j + S d)%nat with (S j + d)%nat in * by lia.
    eapply IH; eauto; [lia|]. intros k Hk. apply Hocc. lia.
Qed.

(** With 128 slots or more, the [int8_t] counter of a scan that finds slots
    [j .. 127] occupied wraps to -128, which is still below the capacity:
    the next read is outside the table. *)
Lemma findFree_loop_overflow d : forall fuel t j,
  (S d < fuel)%nat -> (j + d = 127)%nat ->
  128 <= _numberOfEvents t ->
  (forall k, (j <= k <= 127)%nat -> occupied t k) ->
  findFree_loop fuel t (Z.of_nat j) = Undefined.
Proof.
  induction d as [|d IH]; intros fuel t j Hfuel Hj HN Hocc;
    (destruct fuel as [|fuel]; [lia|]); cbn [findFree_loop];
    (destruct (Z.ltb_spec (Z.of_nat j) (_numberOfEvents t)); [|lia]);
    skip_occupied t j Hocc.
  - replace j with 127%nat by lia. rewrite to_int8_wraps.
    destruct fuel as [|fuel]; [lia|]. cbn [findFree_loop].
    destruct (Z.ltb_spec (-128) (_numberOfEvents t)); [|lia].
    by rewrite load_negative.
  - rewrite to_int8_next by lia.
    apply IH; [lia|lia|done|]. intros k Hk. apply Hocc. lia.
Qed.

(** The scan always ends within its fuel, whatever the table. *)
Lemma findFree_loop_ends d : forall fuel t j,
  (S d < fuel)%nat -> (j + d = 127)%nat ->
  findFree_loop fuel t (Z.of_nat j) <> OutOfFuel.
Proof.
  induction d as [|d IH]; intros fuel t j Hfuel Hj;
    (destruct fuel as [|fuel]; [lia|]); cbn [findFree_loop];
    (destruct (Z.ltb_spec (Z.of_nat j) (_numberOfEvents t)); [|done]);
    (destruct (load t (Z.of_nat j)) as [e| |] eqn:Hload; cbn; [|done|]).
  - destruct (eventType e =? EVENT_NONE); [done|].
    replace j with 127%nat by lia. rewrite to_int8_wraps.
    destruct fuel as [|fuel]; [lia|]. cbn [findFree_loop].
    destruct (_ <? _); [|done]. by rewrite load_negative.
  - unfold load in Hload. repeat case_match; done.
  - destruct (eventType e =? EVENT_NONE); [done|].
    rewrite to_int8_next by lia. apply IH; lia.
  - unfold load in Hload. repeat case_match; done.
Qed.

Lemma findFreeEventIndex_ends t :
  findFreeEventIndex t <> OutOfFuel.
Proof. apply (findFree_loop_ends 127 INT8_VALUES t 0%nat); unfold INT8_VALUES; lia. Qed.

Lemma wf_nonneg t : wf t -> 0 <= _numberOfEvents t.
Proof. unfold wf. lia. Qed.

Lemma full_occupied t (j : nat) :
  wf t -> full t -> Z.of_nat j < _numberOfEvents t -> occupied t j.
Proof.
  intros Hwf Hfull Hj. destruct (wf_lookup t j Hwf Hj) as [e He].
  exists e. split; [done|]. by eapply Hfull.
Qed.

Lemma filled_occupied k t (j : nat) :
  filled k t -> Z.of_nat k <= _numberOfEvents t -> (j < k)%nat -> occupied t j.
Proof.
  intros [Hwf Hk] HN Hj. destruct (wf_lookup t j Hwf) as [e He]; [lia|].
  exists e. split; [done|]. by apply (Hk j e He).
Qed.

Lemma filled_free k t (j : nat) e :
  filled k t -> _events t !! j = Some e -> (k <= j)%nat ->
  eventType e = EVENT_NONE.
Proof.
  intros [_ Hk] He Hj. destruct (decide (eventType e = EVENT_NONE)); [done|].
  apply (Hk j e He) in n. lia.
Qed.

Lemma filled_full k t :
  filled k t -> Z.of_nat k = _numberOfEvents t -> full t.
Proof.
  intros [Hwf Hk] HN j e He. apply (Hk j e He).
  apply lookup_lt_Some in He. unfold wf in Hwf. lia.
Qed.

(** The scan returns the lowest free index. *)
Lemma findFreeEventIndex_filled k t :
  filled k t -> Z.of_nat k < _numberOfEvents t -> (k <= 127)%nat ->
  findFreeEventIndex t = Done (Z.of_nat k).
Proof.
  intros Hfilled HN Hk.
  destruct (wf_lookup t k) as [e He]; [apply Hfilled|done|].
  apply (findFree_loop_found k INT8_VALUES t 0%nat e);
    [unfold INT8_VALUES; lia|lia|done|done| |].
  - by eapply filled_free.
  - intros j Hj. eapply filled_occupied; eauto; lia.
Qed.

Lemma findFreeEventIndex_full t :
  wf t -> full t -> _numberOfEvents t <= 127 ->
  findFreeEventIndex t = Done NO_TIMER_AVAILABLE.
Proof using NO_TIMER_AVAILABLE_range.
  intros Hwf Hfull HN. pose proof (wf_nonneg t Hwf) as H0.
  apply (findFree_loop_exhausted (Z.to_nat (_numberOfEvents t)) INT8_VALUES t 0%nat);
    [unfold INT8_VALUES; lia|lia|lia|].
  intros j Hj. apply full_occupied; [done|done|lia].
Qed.

Lemma findFreeEventIndex_full_overflow t :
  wf t -> full t -> 128 <= _numberOfEvents t ->
  findFreeEventIndex t = Undefined.
Proof.
  intros Hwf Hfull HN.
  apply (findFree_loop_overflow 127 INT8_VALUES t 0%nat);
    [unfold INT8_VALUES; lia|lia|done|].
  intros j Hj. apply full_occupied; [done|done|lia].
Qed.

(** *** Writing a slot *)

Lemma store_claims k t f e :
  filled k t -> _events t !! k = Some e -> eventType (f e) <> EVENT_NONE ->
  filled (S k)
    (mkTimer (_numberOfEvents t) (<[k := f e]> (_events t)) (_events_storage t)).
Proof.
  intros [Hwf Hk] He Hf. split.
  - unfold wf in *. cbn. by rewrite length_insert.
  - cbn. intros j e' Hj. destruct (decide (k = j)) as [<-|Hne].
    + rewrite list_lookup_insert_eq in Hj by (by eapply lookup_lt_Some).
      inversion Hj; subst. split; [lia|done].
    + rewrite list_lookup_insert_ne in Hj by done.
      rewrite (Hk j e' Hj). lia.
Qed.

Lemma store_keeps_filled k t j f e :
  filled k t -> _events t !! j = Some e -> eventType (f e) = eventType e ->
  filled k
    (mkTimer (_numberOfEvents t) (<[j := f e]> (_events t)) (_events_storage t)).
Proof.
  intros [Hwf Hk] He Hf. split.
  - unfold wf in *. cbn. by rewrite length_insert.
  - cbn. intros j' e' Hj. destruct (decide (j = j')) as [<-|Hne].
    + rewrite list_lookup_insert_eq in Hj by (by eapply lookup_lt_Some).
      inversion Hj; subst. rewrite Hf. by apply Hk.
    + rewrite list_lookup_insert_ne in Hj by done. by apply Hk.
Qed.

Lemma not_the_sentinel (k : nat) : (Z.of_nat k =? NO_TIMER_AVAILABLE) = false.
Proof using NO_TIMER_AVAILABLE_range. apply Z.eqb_neq. lia. Qed.

(** *** One registration on a table filled up to [k] *)

Lemma every_filled
    (HE : EVENT_EVERY <> EVENT_NONE)
    k t w p cb rc ctx :
  filled k t -> Z.of_nat k < _numberOfEvents t -> (k <= 127)%nat ->
  exists e,
    _events t !! k = Some e /\
    let t1 := mkTimer (_numberOfEvents t)
                (<[k := mkEvent EVENT_EVERY p rc (pin e) (pinState e) cb
                          (fst (millis w)) 0 ctx]> (_events t))
                (_events_storage t) in
    every p cb rc ctx (t, w) = Done (Z.of_nat k, (t1, snd (millis w))) /\
    filled (S k) t1.
Proof using NO_TIMER_AVAILABLE_range.
  intros Hfilled HN Hk.
  destruct (wf_lookup t k) as [e He]; [apply Hfilled|done|].
  exists e. split; [done|]. cbn zeta. split.
  - unfold every. rewrite (findFreeEventIndex_filled k) by done.
    cbn [bind]. rewrite not_the_sentinel.
    destruct (millis w) as [now w1] eqn:Hm.
    by erewrite store_nat by done.
  - by apply (store_claims k t (fun _ => mkEvent _ _ _ _ _ _ _ _ _) e).
Qed.

Lemma oscillate_filled
    (HO : EVENT_OSCILLATE <> EVENT_NONE)
    k t w pn p v rc :
  filled k t -> Z.of_nat k < _numberOfEvents t -> (k <= 127)%nat ->
  exists e,
    _events t !! k = Some e /\
    let w1 := digitalWrite pn v w in
    let t1 := mkTimer (_numberOfEvents t)
                (<[k := mkEvent EVENT_OSCILLATE p (rc * 2) pn v 0
                          (fst (millis w1)) 0 0]> (_events t))
                (_events_storage t) in
    oscillate pn p v rc (t, w)
    = (if in_int (rc * 2) then Done (Z.of_nat k, (t1, snd (millis w1)))
       else Undefined) /\
    filled (S k) t1.
Proof using NO_TIMER_AVAILABLE_range.
  intros Hfilled HN Hk.
  destruct (wf_lookup t k) as [e He]; [apply Hfilled|done|].
  exists e. split; [done|]. cbn zeta. split.
  - unfold oscillate. rewrite (findFreeEventIndex_filled k) by done.
    cbn [bind]. rewrite not_the_sentinel. unfold int_mul.
    destruct (in_int (rc * 2)); [|done]. cbn [bind].
    destruct (millis (digitalWrite pn v w)) as [now w2] eqn:Hm.
    by erewrite store_nat by done.
  - by apply (store_claims k t (fun _ => mkEvent _ _ _ _ _ _ _ _ _) e).
Qed.

(** One full cycle, two transitions, fits any [int]. *)
Lemma in_int_2 : in_int (1 * 2) = true.
Proof using INT_BITS_min.
  unfold in_int. apply andb_true_iff. split.
  - apply Z.leb_le. pose proof (Z.pow_pos_nonneg 2 (INT_BITS - 1)). lia.
  - apply Z.ltb_lt.
    assert (2 ^ 2 <= 2 ^ (INT_BITS - 1)) by (apply Z.pow_le_mono_r; lia).
    lia.
Qed.

Lemma pulseImmediate_filled
    (HO : EVENT_OSCILLATE <> EVENT_NONE)
    k t w pn p v :
  filled k t -> Z.of_nat k < _numberOfEvents t -> (k <= 127)%nat ->
  exists e,
    _events t !! k = Some e /\
    let w1 := digitalWrite pn v w in
    let t1 := mkTimer (_numberOfEvents t)
                (<[k := mkEvent EVENT_OSCILLATE p 1 pn v 0
                          (fst (millis w1)) 0 0]> (_events t))
                (_events_storage t) in
    pulseImmediate pn p v (t, w) = Done (Z.of_nat k, (t1, snd (millis w1))) /\
    filled (S k) t1.
Proof using NO_TIMER_AVAILABLE_range INT_BITS_min.
  intros Hfilled HN Hk.
  destruct (oscillate_filled HO k t w pn p v 1 Hfilled HN Hk)
    as (e & He & Hosc & Hfilled1).
  exists e. split; [done|]. cbn zeta in *. split.
  - unfold pulseImmediate. rewrite Hosc, in_int_2.
    cbn [bind _numberOfEvents].
    destruct (Z.leb_spec 0 (Z.of_nat k)); [|lia].
    destruct (Z.ltb_spec (Z.of_nat k) (_numberOfEvents t)); [|lia].
    cbn [andb].
    erewrite store_nat; cycle 1.
    { cbn. apply list_lookup_insert_eq. by eapply lookup_lt_Some. }
    cbn. by rewrite list_insert_insert_eq.
  - by apply (store_claims k t (fun _ => mkEvent _ _ _ _ _ _ _ _ _) e).
Qed.

Lemma register_filled
    (HE : EVENT_EVERY <> EVENT_NONE) (HO : EVENT_OSCILLATE <> EVENT_NONE)
    k t w r i s' :
  filled k t -> Z.of_nat k < _numberOfEvents t -> (k <= 127)%nat ->
  register r (t, w) = Done (i, s') ->
  i = Z.of_nat k /\ filled (S k) (fst s') /\
  _numberOfEvents (fst s') = _numberOfEvents t.
Proof using NO_TIMER_AVAILABLE_range INT_BITS_min.
  intros Hfilled HN Hk.
  destruct r as [p cb rc ctx|p cb ctx|p cb ctx|pn p v rc|pn p v|pn p v|pn p v];
    cbn [register]; unfold every3, after, oscillate3, pulse.
  1-3: edestruct (every_filled HE k t w) as (e & _ & Hcall & Hnext);
       [done..|]; rewrite Hcall;
       intros [= <- <-]; by cbn.
  1-3: edestruct (oscillate_filled HO k t w) as (e & _ & Hcall & Hnext);
       [done..|]; rewrite Hcall;
       destruct (in_int _); [|done];
       intros [= <- <-]; by cbn.
  destruct (pulseImmediate_filled HO k t w pn p v Hfilled HN Hk)
    as (e & _ & -> & Hnext).
  intros [= <- <-]. by cbn.
Qed.

(** With at most 127 slots and none free, a registration returns the
    sentinel and leaves the timer and the board as they were. *)
Lemma register_full t w r :
  wf t -> full t -> _numberOfEvents t <= 127 ->
  register r (t, w) = Done (NO_TIMER_AVAILABLE, (t, w)).
Proof using NO_TIMER_AVAILABLE_range.
  intros Hwf Hfull HN.
  pose proof (findFreeEventIndex_full t Hwf Hfull HN) as Hscan.
  destruct r; cbn [register];
    unfold every3, after, oscillate3, pulse, pulseImmediate, every, oscillate;
    rewrite Hscan; cbn [bind]; rewrite Z.eqb_refl, to_int8_id by lia;
    try done.
  cbn [bind]. destruct (Z.leb_spec 0 NO_TIMER_AVAILABLE); [lia|done].
Qed.

(** With 128 slots or more and none free, the scan of a registration leaves
    the table. *)
Lemma register_full_overflow t w r :
  wf t -> full t -> 128 <= _numberOfEvents t ->
  register r (t, w) = Undefined.
Proof.
  intros Hwf Hfull HN.
  pose proof (findFreeEventIndex_full_overflow t Hwf Hfull HN) as Hscan.
  destruct r; cbn [register];
    unfold every3, after, oscillate3, pulse, pulseImmediate, every, oscillate;
    by rewrite Hscan.
Qed.

(** *** Sequences of registrations *)

Lemma register_all_filled
    (HE : EVENT_EVERY <> EVENT_NONE) (HO : EVENT_OSCILLATE <> EVENT_NONE)
    rs : forall k t w ids s',
  filled k t ->
  Z.of_nat (k + length rs) <= _numberOfEvents t ->
  (k + length rs <= 128)%nat ->
  register_all rs (t, w) = Done (ids, s') ->
  ids = Z.of_nat <$> seq k (length rs) /\
  filled (k + length rs) (fst s') /\
  _numberOfEvents (fst s') = _numberOfEvents t.
Proof using NO_TIMER_AVAILABLE_range INT_BITS_min.
  induction rs as [|r rs IH]; intros k t w ids s' Hfilled HN Hk; cbn.
  - intros [= <- <-]. by rewrite Nat.add_0_r.
  - destruct (register r (t, w)) as [[i [t1 w1]]| |] eqn:Hr; cbn; [|done..].
    destruct (register_all rs (t1, w1)) as [[ids1 s1]| |] eqn:Hrs; cbn;
      [|done..].
    intros [= <- <-].
    apply (register_filled HE HO) with (k := k) in Hr as (-> & Hfilled1 & HN1);
      cbn in *; [|done|lia..].
    apply IH with (k := S k) in Hrs as (-> & Hfilled2 & HN2);
      [|done|cbn in *; lia..].
    replace (k + S (length rs))%nat with (S k + length rs)%nat by lia.
    split; [done|]. split; [done|]. congruence.
Qed.

Lemma Timer_byte_filled n w :
  0 <= n ->
  filled 0 (fst (Timer_byte n w)) /\ _numberOfEvents (fst (Timer_byte n w)) = n.
Proof.
  intros Hn. unfold Timer_byte. cbn. split; [|done]. split.
  - unfold wf. cbn. rewrite length_replicate. lia.
  - cbn. intros j e [-> _]%lookup_replicate. cbn. split; [done|lia].
Qed.

Lemma Timer_void_filled w :
  0 <= DEFAULT_NUMBER_OF_EVENTS ->
  filled 0 (fst (Timer_void w)).
Proof.
  intros Hn. unfold Timer_void. cbn. split.
  - unfold wf. cbn. rewrite length_replicate. lia.
  - cbn. intros j e [-> _]%lookup_replicate. cbn. split; [done|lia].
Qed.

(** X17.  Up to 127 slots the table behaves as the specification says: the
    registrations into a fresh table return 0, 1, 2, ... in turn, each the
    lowest free index, and once the table is full a further registration
    returns the sentinel and changes nothing. *)
Lemma registrations_up_to_capacity
    (HE : EVENT_EVERY <> EVENT_NONE) (HO : EVENT_OSCILLATE <> EVENT_NONE)
    n w rs ids s' :
  0 <= n <= 127 -> Z.of_nat (length rs) <= n ->
  register_all rs (Timer_byte n w) = Done (ids, s') ->
  ids = Z.of_nat <$> seq 0 (length rs) /\
  (Z.of_nat (length rs) = n ->
   forall r, register r s' = Done (NO_TIMER_AVAILABLE, s')).
Proof using NO_TIMER_AVAILABLE_range INT_BITS_min.
  intros Hn Hlen Hrun.
  destruct (Timer_byte_filled n w) as [Hfresh HN]; [lia|].
  destruct (Timer_byte n w) as [t0 w0]. cbn in *.
  apply (register_all_filled HE HO) with (k := 0%nat) in Hrun
    as (-> & Hfilled & HN'); [|done|lia..].
  split; [done|]. intros Hfull r. destruct s' as [t1 w1]. cbn in *.
  apply register_full; [apply Hfilled| |lia].
  eapply filled_full; [done|lia].
Qed.

(** Registrations by [every] are always defined, so the sequences above
    exist. *)
Lemma register_all_every_defined
    (HE : EVENT_EVERY <> EVENT_NONE)
    rs : forall k t w,
  Forall (fun r => match r with REvery _ _ _ _ => True | _ => False end) rs ->
  filled k t ->
  Z.of_nat (k + length rs) <= _numberOfEvents t ->
  (k + length rs <= 128)%nat ->
  exists ids s', register_all rs (t, w) = Done (ids, s').
Proof using NO_TIMER_AVAILABLE_range.
  induction rs as [|r rs IH]; intros k t w Hall Hfilled HN Hk; cbn.
  - by eexists _, _.
  - inversion Hall as [|r' rs' Hr Hrs]; subst.
    destruct r as [p cb rc ctx| | | | | |]; try done. cbn in HN, Hk.
    destruct (every_filled HE k t w p cb rc ctx) as (e & _ & Hev & Hnext);
      [done|lia|lia|].
    cbn [register]. rewrite Hev. cbn [bind].
    edestruct (IH (S k)) as (ids & s' & ->); [done|exact Hnext|cbn; lia..|].
    cbn. by eexists _, _.
Qed.

(** *** One slot of the dispatch *)

Lemma Event_action_repeatCount e w :
  repeatCount (fst (Event_action e w)) = repeatCount e.
Proof. unfold Event_action. by repeat case_match. Qed.

(** A slot that has counted down is either retired or has counts left. *)
Lemma Event_countdown_nonzero e :
  repeatCount e <> 0 ->
  eventType (Event_countdown e) = EVENT_NONE \/
  repeatCount (Event_countdown e) <> 0.
Proof.
  intros Hrc. unfold Event_countdown.
  destruct (Z.ltb_spec 0 (repeatCount e)); [|by right].
  cbn. destruct (Z.eqb_spec (repeatCount e - 1) 0); [by left|by right].
Qed.

(** A due slot leaves the dispatch retired or with a non-zero count. *)
Lemma Event_fire_nonzero now e w :
  repeatCount e <> 0 ->
  eventType (fst (Event_fire now e w)) = EVENT_NONE \/
  repeatCount (fst (Event_fire now e w)) <> 0.
Proof.
  intros Hrc0. unfold Event_fire.
  destruct (Event_action _ _) as [e1 w1] eqn:Hact. cbn.
  apply Event_countdown_nonzero.
  pose proof (Event_action_repeatCount (set_lastEventTime now e) w) as Hrc.
  rewrite Hact in Hrc. cbn in Hrc. by rewrite Hrc.
Qed.

(** Whatever the clock reads, a slot leaves its dispatch retired or with a
    non-zero count. *)
Lemma Event_update_nonzero e w :
  eventType (fst (Event_update e w)) = EVENT_NONE \/
  repeatCount (fst (Event_update e w)) <> 0.
Proof.
  unfold Event_update. destruct (millis w) as [now w1].
  destruct (Z.eqb_spec (repeatCount e) 0); [by left|].
  destruct (Event_due now e); [by apply Event_fire_nonzero|by right].
Qed.

(** *** What the scan returns on any table *)

Lemma load_Done t i e :
  load t i = Done e -> 0 <= i /\ _events t !! Z.to_nat i = Some e.
Proof.
  unfold load. destruct (Z.leb_spec 0 i); [|done].
  destruct (_ !! _) as [e0|]; [|done]. by intros [= ->].
Qed.

Lemma findFree_loop_sound fuel : forall t j i,
  findFree_loop fuel t j = Done i ->
  i = to_int8 NO_TIMER_AVAILABLE \/
  (i < _numberOfEvents t /\
   exists e, load t i = Done e /\ eventType e = EVENT_NONE).
Proof.
  induction fuel as [|fuel IH]; intros t j i; cbn [findFree_loop]; [done|].
  destruct (Z.ltb_spec j (_numberOfEvents t)); [|intros [= <-]; by left].
  destruct (load t j) as [e| |] eqn:Hload; cbn [bind]; [|done..].
  destruct (Z.eqb_spec (eventType e) EVENT_NONE); [|apply IH].
  intros [= <-]. right. eauto.
Qed.

(** A registration that does not report the sentinel has found a free slot
    inside the table. *)
Lemma findFreeEventIndex_success t i :
  findFreeEventIndex t = Done i -> i <> NO_TIMER_AVAILABLE ->
  0 <= i < _numberOfEvents t /\
  exists e, _events t !! Z.to_nat i = Some e /\ eventType e = EVENT_NONE.
Proof using NO_TIMER_AVAILABLE_range.
  intros [Hi|(HN & e & Hload & Hfree)]%findFree_loop_sound Hne.
  - rewrite to_int8_id in Hi by lia. done.
  - apply load_Done in Hload as [H0 He]. eauto.
Qed.

Lemma store_Z t i f e :
  0 <= i -> _events t !! Z.to_nat i = Some e ->
  store t i f =
  Done (mkTimer (_numberOfEvents t) (<[Z.to_nat i := f e]> (_events t))
                (_events_storage t)).
Proof.
  intros Hi He. rewrite <- (Z2Nat.id i) at 1 by done. by apply store_nat.
Qed.

(** What [oscillate] does when it succeeds, on any table. *)
Lemma oscillate_success pn p v rc t w i t' w' :
  oscillate pn p v rc (t, w) = Done (i, (t', w')) ->
  i <> NO_TIMER_AVAILABLE ->
  0 <= i < _numberOfEvents t /\
  in_int (rc * 2) = true /\
  w' = snd (millis (digitalWrite pn v w)) /\
  exists e,
    _events t !! Z.to_nat i = Some e /\ eventType e = EVENT_NONE /\
    t' = mkTimer (_numberOfEvents t)
           (<[Z.to_nat i := mkEvent EVENT_OSCILLATE p (rc * 2) pn v 0
                              (fst (millis (digitalWrite pn v w))) 0 0]>
              (_events t))
           (_events_storage t).
Proof using NO_TIMER_AVAILABLE_range.
  unfold oscillate.
  destruct (findFreeEventIndex t) as [i0| |] eqn:Hscan; cbn [bind]; [|done..].
  destruct (Z.eqb_spec i0 NO_TIMER_AVAILABLE) as [->|Hne].
  { rewrite to_int8_id by lia. by intros [= <- <- <-]. }
  destruct (findFreeEventIndex_success t i0 Hscan Hne) as (Hi & e & He & Hfree).
  unfold int_mul. destruct (in_int (rc * 2)); [|done]. cbn [bind].
  destruct (millis (digitalWrite pn v w)) as [now w2] eqn:Hm.
  erewrite store_Z by (done || lia). cbn [bind].
  intros [= <- <- <-] _. do 3 (split; [done|]). by exists e.
Qed.

(** *** The two cases of stop *)

Lemma stop_in_table t id e :
  0 <= to_int8 id < _numberOfEvents t ->
  _events t !! Z.to_nat (to_int8 id) = Some e ->
  stop id t
  = Done (to_int8 TIMER_NOT_AN_EVENT,
          mkTimer (_numberOfEvents t)
            (<[Z.to_nat (to_int8 id) := set_eventType EVENT_NONE e]>
               (_events t))
            (_events_storage t)).
Proof.
  intros [H0 HN] He. unfold stop. cbv zeta.
  destruct (Z.leb_spec 0 (to_int8 id)); [|lia].
  destruct (Z.ltb_spec (to_int8 id) (_numberOfEvents t)); [|lia]. cbn [andb].
  by erewrite store_Z by done.
Qed.

Lemma stop_outside t id :
  ~ 0 <= to_int8 id < _numberOfEvents t -> stop id t = Done (to_int8 id, t).
Proof.
  intros Hout. unfold stop. cbv zeta.
  destruct (Z.leb_spec 0 (to_int8 id)); [|done].
  destruct (Z.ltb_spec (to_int8 id) (_numberOfEvents t)); [lia|done].
Qed.

(** Any defined [stop] is one of the two cases above. *)
Lemma stop_cases t id r t1 :
  stop id t = Done (r, t1) ->
  (0 <= to_int8 id < _numberOfEvents t /\
   exists e, _events t !! Z.to_nat (to_int8 id) = Some e /\
     r = to_int8 TIMER_NOT_AN_EVENT /\
     t1 = mkTimer (_numberOfEvents t)
            (<[Z.to_nat (to_int8 id) := set_eventType EVENT_NONE e]>
               (_events t))
            (_events_storage t)) \/
  (~ 0 <= to_int8 id < _numberOfEvents t /\ r = to_int8 id /\ t1 = t).
Proof.
  intros Hstop.
  destruct (decide (0 <= to_int8 id < _numberOfEvents t)) as [Hin|Hout].
  - left. split; [done|].
    destruct (_events t !! Z.to_nat (to_int8 id)) as [e|] eqn:He.
    + rewrite (stop_in_table t id e Hin He) in Hstop.
      injection Hstop as <- <-. by exists e.
    + unfold stop, store, load in Hstop. cbv zeta in Hstop.
      destruct (Z.leb_spec 0 (to_int8 id)); [|lia].
      destruct (Z.ltb_spec (to_int8 id) (_numberOfEvents t)); [|lia].
      cbn [andb] in Hstop. by rewrite He in Hstop.
  - right. rewrite (stop_outside t id Hout) in Hstop.
    by injection Hstop as <- <-.
Qed.

(** ** Main results *)

(** C1.  A fresh scheduler hands out pairwise distinct in-range indices, the
    lowest free one each time, and the registration after the last free
    slot returns the sentinel.  The code breaks this at capacity 128: the
    first 128 registrations return 0, 1, ..., 127 as they should, and the 129th
    has no defined result instead of the sentinel, because the [int8_t]
    counter of the scan wraps from 127 to -128 and never reaches the
    capacity.  ([registrations_up_to_capacity] is the property for
    capacities up to 127.) *)
Theorem capacity_128_next_registration_undefined
    (HE : EVENT_EVERY <> EVENT_NONE) (HO : EVENT_OSCILLATE <> EVENT_NONE)
    w rs ids s' r :
  length rs = 128%nat ->
  register_all rs (Timer_byte 128 w) = Done (ids, s') ->
  ids = Z.of_nat <$> seq 0 128 /\ register r s' = Undefined.
Proof using NO_TIMER_AVAILABLE_range INT_BITS_min.
  intros Hlen Hrun.
  destruct (Timer_byte_filled 128 w) as [Hfresh HN]; [lia|].
  destruct (Timer_byte 128 w) as [t0 w0]. cbn [fst] in *.
  apply (register_all_filled HE HO) with (k := 0%nat) in Hrun
    as (-> & Hfilled & HN'); [|done|lia..].
  rewrite Hlen in *. split; [done|].
  destruct s' as [t1 w1]. cbn [fst] in *.
  apply register_full_overflow; [apply Hfilled| |lia].
  eapply filled_full; [done|lia].
Qed.

(** C2, as the code has it.  [stop] takes its argument as an [int8_t]:
    it works on [to_int8 id], which is [id] itself for every id from -128
    to 127.  With that value inside the table, [stop] sets the kind of that
    slot to [EVENT_NONE], whatever the slot held, keeps the other fields of
    the slot, every other slot, the capacity and the storage, and returns
    [TIMER_NOT_AN_EVENT].  With that value outside the table, and so with
    [NO_TIMER_AVAILABLE], [stop] returns it and leaves the timer as it
    was. *)
Theorem stop_retires_slot_of_int8_id t id :
  wf t ->
  (-128 <= id <= 127 -> to_int8 id = id) /\
  (0 <= to_int8 id < _numberOfEvents t ->
   exists e e1 t1,
     _events t !! Z.to_nat (to_int8 id) = Some e /\
     stop id t = Done (TIMER_NOT_AN_EVENT, t1) /\
     _events t1 !! Z.to_nat (to_int8 id) = Some e1 /\
     eventType e1 = EVENT_NONE /\
     period e1 = period e /\ repeatCount e1 = repeatCount e /\
     pin e1 = pin e /\ pinState e1 = pinState e /\
     callback e1 = callback e /\ lastEventTime e1 = lastEventTime e /\
     count e1 = count e /\ context e1 = context e /\
     (forall j, j <> Z.to_nat (to_int8 id) ->
        _events t1 !! j = _events t !! j) /\
     length (_events t1) = length (_events t) /\
     _numberOfEvents t1 = _numberOfEvents t /\
     _events_storage t1 = _events_storage t) /\
  (~ 0 <= to_int8 id < _numberOfEvents t ->
   stop id t = Done (to_int8 id, t)) /\
  stop NO_TIMER_AVAILABLE t = Done (NO_TIMER_AVAILABLE, t).
Proof using NO_TIMER_AVAILABLE_range TIMER_NOT_AN_EVENT_range.
  intros Hwf. split; [apply to_int8_id|]. split; [|split].
  - intros Hin.
    destruct (wf_lookup t (Z.to_nat (to_int8 id)) Hwf) as [e He]; [lia|].
    exists e, (set_eventType EVENT_NONE e). eexists. split; [done|].
    split.
    { rewrite (stop_in_table t id e Hin He).
      by rewrite (to_int8_id TIMER_NOT_AN_EVENT) by lia. }
    cbn [_events _numberOfEvents _events_storage].
    split. { apply list_lookup_insert_eq. by eapply lookup_lt_Some. }
    do 9 (split; [done|]).
    split. { intros j Hj. by rewrite list_lookup_insert_ne. }
    split; [apply length_insert|done].
  - apply stop_outside.
  - rewrite <- (to_int8_id NO_TIMER_AVAILABLE) at 2 by lia.
    apply stop_outside. rewrite to_int8_id by lia. lia.
Qed.

(** C3.  A successful [oscillate(pin, period, startingValue, repeatCount)]
    writes [startingValue] to the pin at once, and the slot it claims (a
    free slot inside the table) holds kind [EVENT_OSCILLATE], the pin, the
    period, pin state [startingValue] and repeat count [repeatCount * 2];
    the other slots are untouched. *)
Theorem oscillate_stores_doubled_count pn p v rc t w i t' w' :
  oscillate pn p v rc (t, w) = Done (i, (t', w')) ->
  i <> NO_TIMER_AVAILABLE ->
  trace w' = trace w ++ [DigitalWrite pn v] /\
  exists e slot,
    0 <= i < _numberOfEvents t /\
    _events t !! Z.to_nat i = Some e /\ eventType e = EVENT_NONE /\
    _events t' = <[Z.to_nat i := slot]> (_events t) /\
    _events t' !! Z.to_nat i = Some slot /\
    eventType slot = EVENT_OSCILLATE /\
    pin slot = pn /\ period slot = p /\ pinState slot = v /\
    repeatCount slot = rc * 2.
Proof using NO_TIMER_AVAILABLE_range.
  intros Hcall Hok.
  destruct (oscillate_success _ _ _ _ _ _ _ _ _ Hcall Hok)
    as (Hi & _ & -> & e & He & Hfree & ->).
  split; [done|]. eexists e, _. split; [done|]. split; [done|].
  split; [done|]. split; [reflexivity|]. cbn [_events].
  split; [|done]. apply list_lookup_insert_eq. by eapply lookup_lt_Some.
Qed.

(** C4.  After a successful [pulseImmediate(pin, period, pulseValue)] the
    pin has been written [pulseValue] and the claimed slot holds repeat
    count 1.  The dispatch leaves that slot alone until its period has
    elapsed; its first firing then writes the opposite value to the pin,
    and nothing else, and retires the slot, which the loop of [update]
    passes over from then on. *)
Theorem pulseImmediate_fires_once
    (HK : EVENT_EVERY <> EVENT_OSCILLATE)
    pn p v t w i t' w' :
  pulseImmediate pn p v (t, w) = Done (i, (t', w')) ->
  i <> NO_TIMER_AVAILABLE ->
  trace w' = trace w ++ [DigitalWrite pn v] /\
  exists slot,
    _events t' !! Z.to_nat i = Some slot /\
    eventType slot = EVENT_OSCILLATE /\ pin slot = pn /\
    pinState slot = v /\ period slot = p /\ repeatCount slot = 1 /\
    forall w1,
      let now := fst (millis w1) in
      (elapsed now (lastEventTime slot) < p ->
       Event_update slot w1 = (slot, snd (millis w1))) /\
      (p <= elapsed now (lastEventTime slot) ->
       let retired := fst (Event_update slot w1) in
       eventType retired = EVENT_NONE /\
       pinState retired = toggle v /\
       trace (snd (Event_update slot w1))
       = trace w1 ++ [DigitalWrite pn (toggle v)] /\
       forall w2, update_events [retired] w2 = ([retired], w2)).
Proof using NO_TIMER_AVAILABLE_range.
  unfold pulseImmediate. intros Hcall Hok.
  destruct (oscillate pn p v 1 (t, w)) as [[id [t1 w1]]| |] eqn:Hosc;
    cbn [bind] in Hcall; [|done..].
  assert (id <> NO_TIMER_AVAILABLE) as Hid.
  { intros ->. destruct (Z.leb_spec 0 NO_TIMER_AVAILABLE); [lia|].
    cbn [andb] in Hcall. by inversion Hcall. }
  destruct (oscillate_success _ _ _ _ _ _ _ _ _ Hosc Hid)
    as ([H0 HN] & _ & -> & e & He & Hfree & ->).
  cbn [_numberOfEvents] in Hcall.
  destruct (Z.leb_spec 0 id); [|lia].
  destruct (Z.ltb_spec id (_numberOfEvents t)); [|lia]. cbn [andb] in Hcall.
  erewrite store_Z in Hcall; [|done|]; cycle 1.
  { cbn [_events]. apply list_lookup_insert_eq. by eapply lookup_lt_Some. }
  cbn [bind _numberOfEvents _events _events_storage] in Hcall.
  rewrite list_insert_insert_eq in Hcall.
  injection Hcall as <- <- <-. split; [done|].
  exists (mkEvent EVENT_OSCILLATE p 1 pn v 0
            (fst (millis (digitalWrite pn v w))) 0 0).
  split.
  { cbn [_events]. apply list_lookup_insert_eq. by eapply lookup_lt_Some. }
  do 5 (split; [done|]). intros w1.
  set (last := fst (millis (digitalWrite pn v w))).
  unfold Event_update, Event_due.
  destruct (millis w1) as [now1 w2] eqn:Hm.
  cbn [repeatCount]. change (1 =? 0) with false. cbv iota.
  cbn [fst snd lastEventTime period]. split.
  - intros Hearly. by destruct (Z.ltb_spec (elapsed now1 last) p); [|lia].
  - intros Hdue. destruct (Z.ltb_spec (elapsed now1 last) p); [lia|].
    cbn [negb]. unfold Event_fire, Event_action, Event_countdown.
    cbn [repeatCount set_lastEventTime eventType].
    destruct (Z.eqb_spec EVENT_OSCILLATE EVENT_EVERY); [congruence|].
    rewrite Z.eqb_refl.
    unfold set_eventType, set_repeatCount, set_count, set_pinState,
      set_lastEventTime, digitalWrite.
    cbn. change (1 - 1) with 0. cbn.
    unfold millis in Hm. injection Hm as _ <-. done.
Qed.

(** C5.  [pulse(pin, period, startingValue)] is
    [oscillate(pin, period, startingValue, 1)]: the same result, the same
    scheduler and the same pin write, in every state. *)
Theorem pulse_is_oscillate_once pn p v (s : State) :
  pulse pn p v s = oscillate pn p v 1 s.
Proof. reflexivity. Qed.

(** C6.  The three-argument [every] is [every] with repeat count -1, and
    [after] is [every] with repeat count 1: the same return value and the
    same resulting state. *)
Theorem every3_and_after_are_every p cb ctx (s : State) :
  every3 p cb ctx s = every p cb (-1) ctx s /\
  after p cb ctx s = every p cb 1 ctx s.
Proof. split; reflexivity. Qed.

(** *** Storage *)

(** A heap table of any other capacity is released once, and the static
    table of the default constructor is never released. *)
Lemma sized_timer_released n w :
  n <> DEFAULT_NUMBER_OF_EVENTS ->
  exists w2,
    Timer_destroy (fst (Timer_byte n w)) (snd (Timer_byte n w)) = Done w2 /\
    released w2 = released w ++ [next_block w].
Proof.
  intros Hn. unfold Timer_destroy, Timer_byte. cbn.
  destruct (Z.eqb_spec n DEFAULT_NUMBER_OF_EVENTS); [done|]. cbn.
  by eexists.
Qed.

Lemma default_timer_releases_nothing w :
  Timer_destroy (fst (Timer_void w)) (snd (Timer_void w)) = Done w.
Proof. unfold Timer_destroy, Timer_void. cbn. by rewrite Z.eqb_refl. Qed.

(** C9.  Every scheduler built with the sized constructor owns a heap block
    and ought to release it once on destruction.  The destructor decides by
    comparing the capacity with [DEFAULT_NUMBER_OF_EVENTS], so the block of
    a sized scheduler whose capacity is the default is never released: it
    is still live after the destructor has run.  ([sized_timer_released]
    and [default_timer_releases_nothing] are the two cases the destructor
    gets right.) *)
Theorem sized_timer_of_default_capacity_leaks w :
  let t := fst (Timer_byte DEFAULT_NUMBER_OF_EVENTS w) in
  let w1 := snd (Timer_byte DEFAULT_NUMBER_OF_EVENTS w) in
  _events_storage t = HeapBlock (next_block w) /\
  Timer_destroy t w1 = Done w1 /\
  released w1 = released w /\
  next_block w ∈ live w1.
Proof.
  unfold Timer_destroy, Timer_byte. cbn. rewrite Z.eqb_refl. cbn.
  do 3 (split; [done|]). apply list_elem_of_here.
Qed.

(** C10.  A registration that finds no free slot ought to return the
    sentinel before any effect.  With at most 127 slots it does
    ([register_full]).  With 128 slots or more and none free, no
    registration returns the sentinel: the scan leaves the table, the defect
    of C1. *)
Theorem full_table_of_128_registration_undefined t w :
  wf t -> full t -> 128 <= _numberOfEvents t ->
  (forall p cb rc ctx, every p cb rc ctx (t, w) = Undefined) /\
  (forall pn p v rc, oscillate pn p v rc (t, w) = Undefined) /\
  (forall pn p v, pulse pn p v (t, w) = Undefined) /\
  (forall pn p v, pulseImmediate pn p v (t, w) = Undefined).
Proof.
  intros Hwf Hfull HN.
  pose proof (fun r => register_full_overflow t w r Hwf Hfull HN) as Hreg.
  split; [|split; [|split]]; intros.
  - apply (Hreg (REvery p cb rc ctx)).
  - apply (Hreg (ROscillate pn p v rc)).
  - apply (Hreg (RPulse pn p v)).
  - apply (Hreg (RPulseImmediate pn p v)).
Qed.

(** ** Further properties of Timer.cpp *)

(** *** The scan, on any table *)

Lemma to_int8_range z : -128 <= to_int8 z <= 127.
Proof. unfold to_int8. pose proof (Z.mod_pos_bound (z + 128) 256). lia. Qed.

(** Once the counter has wrapped, the scan can only report the sentinel. *)
Lemma findFree_loop_wrapped fuel t i :
  findFree_loop fuel t (-128) = Done i -> i = to_int8 NO_TIMER_AVAILABLE.
Proof.
  destruct fuel as [|fuel]; cbn [findFree_loop]; [done|].
  destruct (_ <? _); [|by intros [= <-]]. by rewrite load_negative.
Qed.

Lemma findFree_loop_lowest fuel : forall t (j : nat) i,
  (j <= 127)%nat ->
  findFree_loop fuel t (Z.of_nat j) = Done i ->
  i = to_int8 NO_TIMER_AVAILABLE \/
  exists (k : nat) e,
    i = Z.of_nat k /\ (j <= k <= 127)%nat /\ i < _numberOfEvents t /\
    _events t !! k = Some e /\ eventType e = EVENT_NONE /\
    forall m, (j <= m < k)%nat -> occupied t m.
Proof.
  induction fuel as [|fuel IH]; intros t j i Hj; cbn [findFree_loop]; [done|].
  destruct (Z.ltb_spec (Z.of_nat j) (_numberOfEvents t));
    [|intros [= <-]; by left].
  rewrite load_nat. destruct (_events t !! j) as [e|] eqn:He; [|done].
  cbn [bind]. destruct (Z.eqb_spec (eventType e) EVENT_NONE) as [Hfree|Hocc].
  { intros [= <-]. right. exists j, e. repeat split; try done; lia. }
  destruct (decide (j = 127%nat)) as [->|Hne].
  { rewrite to_int8_wraps. intros Hw%findFree_loop_wrapped. by left. }
  rewrite to_int8_next by lia. intros Hrec.
  destruct (IH t (S j) i ltac:(lia) Hrec)
    as [Hs|(k & e' & -> & Hk & HN & He' & Hfree' & Hbelow)]; [by left|].
  right. exists k, e'. repeat split; try done; try lia.
  intros m Hm. destruct (decide (m = j)) as [->|Hmj].
  - by exists e.
  - apply Hbelow. lia.
Qed.

(** The lowest free slot of a table, if it has a free slot at all. *)
Lemma lowest_free_slot (l : list Event) : forall j e,
  l !! j = Some e -> eventType e = EVENT_NONE ->
  exists i e',
    (i <= j)%nat /\ l !! i = Some e' /\ eventType e' = EVENT_NONE /\
    forall k, (k < i)%nat ->
      exists ek, l !! k = Some ek /\ eventType ek <> EVENT_NONE.
Proof.
  induction l as [|e0 l IH]; intros j e Hj Hfree; [done|].
  destruct (decide (eventType e0 = EVENT_NONE)) as [H0|H0].
  { exists 0%nat, e0. repeat split; try done; [lia|]. intros k Hk. lia. }
  destruct j as [|j]; [cbn in Hj; by inversion Hj; subst|].
  destruct (IH j e Hj Hfree) as (i & e' & Hi & He' & Hfree' & Hbelow).
  exists (S i), e'. repeat split; try done; [lia|].
  intros [|k] Hk; [by exists e0|]. apply Hbelow. lia.
Qed.

(** The scan reports the sentinel only after it has found every slot from
    its starting point on occupied, in a table of at most 127 slots. *)
Lemma findFree_loop_sentinel fuel : forall t (j : nat),
  (j <= 127)%nat ->
  findFree_loop fuel t (Z.of_nat j) = Done NO_TIMER_AVAILABLE ->
  _numberOfEvents t <= 127 /\
  forall m, (j <= m)%nat -> Z.of_nat m < _numberOfEvents t -> occupied t m.
Proof using NO_TIMER_AVAILABLE_range.
  induction fuel as [|fuel IH]; intros t j Hj; cbn [findFree_loop]; [done|].
  destruct (Z.ltb_spec (Z.of_nat j) (_numberOfEvents t)).
  2:{ intros _. split; [lia|]. intros m Hm HN. lia. }
  rewrite load_nat. destruct (_events t !! j) as [e|] eqn:He; [|done].
  cbn [bind]. destruct (Z.eqb_spec (eventType e) EVENT_NONE) as [Hfree|Hocc].
  { intros [= Hs]. lia. }
  destruct (decide (j = 127%nat)) as [->|Hne].
  { rewrite to_int8_wraps. destruct fuel as [|fuel]; [done|].
    cbn [findFree_loop].
    destruct (Z.ltb_spec (-128) (_numberOfEvents t)); [|lia].
    by rewrite load_negative. }
  rewrite to_int8_next by lia. intros Hrec.
  destruct (IH t (S j) ltac:(lia) Hrec) as [HN Hrest]. split; [done|].
  intros m Hm HmN. destruct (decide (m = j)) as [->|Hmj].
  - by exists e.
  - apply Hrest; [lia|done].
Qed.

Lemma findFreeEventIndex_returns_lowest_free_aux t i :
  findFreeEventIndex t = Done i -> i <> NO_TIMER_AVAILABLE ->
  exists (k : nat) e,
    i = Z.of_nat k /\ (k <= 127)%nat /\ i < _numberOfEvents t /\
    _events t !! k = Some e /\ eventType e = EVENT_NONE /\
    forall m, (m < k)%nat -> occupied t m.
Proof using NO_TIMER_AVAILABLE_range.
  intros Hscan Hne.
  destruct (findFree_loop_lowest INT8_VALUES t 0%nat i ltac:(lia) Hscan)
    as [Hs|(k & e & -> & Hk & HN & He & Hfree & Hbelow)].
  { rewrite to_int8_id in Hs by lia. done. }
  exists k, e. repeat split; try done; [lia|].
  intros m Hm. apply Hbelow. lia.
Qed.

(** X1.  What a result of the scan of [findFreeEventIndex] means, on every
    table.  A result other than the sentinel is an index of the table, at
    most 127, whose slot is free, and every slot below it is occupied.  The
    sentinel is returned only by a table of at most 127 slots all of which
    are occupied. *)
Theorem findFreeEventIndex_result_meaning t i :
  findFreeEventIndex t = Done i ->
  (i <> NO_TIMER_AVAILABLE ->
   exists (k : nat) e,
     i = Z.of_nat k /\ (k <= 127)%nat /\ i < _numberOfEvents t /\
     _events t !! k = Some e /\ eventType e = EVENT_NONE /\
     forall m, (m < k)%nat -> occupied t m) /\
  (i = NO_TIMER_AVAILABLE ->
   _numberOfEvents t <= 127 /\
   forall m : nat, Z.of_nat m < _numberOfEvents t -> occupied t m).
Proof using NO_TIMER_AVAILABLE_range.
  intros Hscan. split.
  - by apply findFreeEventIndex_returns_lowest_free_aux.
  - intros ->.
    destruct (findFree_loop_sentinel INT8_VALUES t 0%nat ltac:(lia) Hscan)
      as [HN Hall].
    split; [done|]. intros m Hm. apply Hall; [lia|done].
Qed.

(** X2.  The scan is complete below index 128, whatever the capacity: if a
    slot with index at most 127 is free, the scan returns the lowest free
    index. *)
Theorem findFreeEventIndex_finds_free_slot t (j : nat) e :
  wf t -> (j <= 127)%nat ->
  _events t !! j = Some e -> eventType e = EVENT_NONE ->
  exists (i : nat) e',
    findFreeEventIndex t = Done (Z.of_nat i) /\ (i <= j)%nat /\
    _events t !! i = Some e' /\ eventType e' = EVENT_NONE /\
    forall m, (m < i)%nat -> occupied t m.
Proof.
  intros Hwf Hj He Hfree.
  destruct (lowest_free_slot (_events t) j e He Hfree)
    as (i & e' & Hi & He' & Hfree' & Hbelow).
  exists i, e'. repeat split; try done.
  apply (findFree_loop_found i INT8_VALUES t 0%nat e');
    [unfold INT8_VALUES; lia|lia| |done|done|].
  - apply lookup_lt_Some in He'. unfold wf in Hwf. cbn. lia.
  - intros k Hk. apply Hbelow. lia.
Qed.

(** *** Registration, on any table *)

Lemma every_returns_scan p cb rc ctx t w i s' :
  every p cb rc ctx (t, w) = Done (i, s') -> findFreeEventIndex t = Done i.
Proof using NO_TIMER_AVAILABLE_range.
  unfold every.
  destruct (findFreeEventIndex t) as [i0| |]; cbn [bind]; [|done..].
  destruct (Z.eqb_spec i0 NO_TIMER_AVAILABLE) as [->|Hne].
  { rewrite to_int8_id by lia. by intros [= <- _]. }
  destruct (millis w) as [now w1].
  destruct (store t i0 _) as [t1| |]; cbn [bind]; [|done..].
  by intros [= <- _].
Qed.

Lemma oscillate_returns_scan pn p v rc t w i s' :
  oscillate pn p v rc (t, w) = Done (i, s') -> findFreeEventIndex t = Done i.
Proof using NO_TIMER_AVAILABLE_range.
  unfold oscillate.
  destruct (findFreeEventIndex t) as [i0| |]; cbn [bind]; [|done..].
  destruct (Z.eqb_spec i0 NO_TIMER_AVAILABLE) as [->|Hne].
  { rewrite to_int8_id by lia. by intros [= <- _]. }
  destruct (int_mul rc 2) as [rc2| |]; cbn [bind]; [|done..].
  destruct (millis _) as [now w1].
  destruct (store t i0 _) as [t1| |]; cbn [bind]; [|done..].
  by intros [= <- _].
Qed.

(** A call that reports the sentinel has changed nothing. *)
Lemma every_sentinel p cb rc ctx s s' :
  every p cb rc ctx s = Done (NO_TIMER_AVAILABLE, s') -> s' = s.
Proof.
  destruct s as [t w]. unfold every.
  destruct (findFreeEventIndex t) as [i0| |]; cbn [bind]; [|done..].
  destruct (Z.eqb_spec i0 NO_TIMER_AVAILABLE) as [->|Hne];
    [by intros [= _ <-]|].
  destruct (millis w) as [now w1].
  destruct (store t i0 _) as [t1| |]; cbn [bind]; [|done..].
  intros [= -> _]. done.
Qed.

Lemma oscillate_sentinel pn p v rc s s' :
  oscillate pn p v rc s = Done (NO_TIMER_AVAILABLE, s') -> s' = s.
Proof.
  destruct s as [t w]. unfold oscillate.
  destruct (findFreeEventIndex t) as [i0| |]; cbn [bind]; [|done..].
  destruct (Z.eqb_spec i0 NO_TIMER_AVAILABLE) as [->|Hne];
    [by intros [= _ <-]|].
  destruct (int_mul rc 2) as [rc2| |]; cbn [bind]; [|done..].
  destruct (millis _) as [now w1].
  destruct (store t i0 _) as [t1| |]; cbn [bind]; [|done..].
  intros [= -> _]. done.
Qed.

(** What [every] does when it succeeds, on any table. *)
Lemma every_success p cb rc ctx t w i t' w' :
  every p cb rc ctx (t, w) = Done (i, (t', w')) ->
  i <> NO_TIMER_AVAILABLE ->
  w' = snd (millis w) /\
  exists e,
    0 <= i /\ _events t !! Z.to_nat i = Some e /\
    t' = mkTimer (_numberOfEvents t)
           (<[Z.to_nat i := mkEvent EVENT_EVERY p rc (pin e) (pinState e) cb
                              (fst (millis w)) 0 ctx]> (_events t))
           (_events_storage t).
Proof using NO_TIMER_AVAILABLE_range.
  unfold every.
  destruct (findFreeEventIndex t) as [i0| |] eqn:Hscan; cbn [bind]; [|done..].
  destruct (Z.eqb_spec i0 NO_TIMER_AVAILABLE) as [->|Hne].
  { rewrite to_int8_id by lia. by intros [= <- <- <-]. }
  destruct (findFreeEventIndex_success t i0 Hscan Hne) as (Hi & e & He & Hfree).
  destruct (millis w) as [now w1] eqn:Hm.
  erewrite store_Z by (done || lia). cbn [bind].
  intros [= <- <- <-] _. split; [done|]. exists e. by repeat split; try lia.
Qed.

(** A successful registration of any kind rewrites the slot it returns, with
    one of the two kinds, and nothing else of the timer. *)
Lemma register_writes_one_slot r t w i t' w' :
  register r (t, w) = Done (i, (t', w')) -> i <> NO_TIMER_AVAILABLE ->
  exists slot,
    (eventType slot = EVENT_EVERY \/ eventType slot = EVENT_OSCILLATE) /\
    t' = mkTimer (_numberOfEvents t) (<[Z.to_nat i := slot]> (_events t))
           (_events_storage t).
Proof using NO_TIMER_AVAILABLE_range.
  intros Hcall Hok.
  destruct r as [p cb rc ctx|p cb ctx|p cb ctx|pn p v rc|pn p v|pn p v|pn p v];
    cbn [register] in Hcall; unfold every3, after, oscillate3, pulse in Hcall.
  1-3: destruct (every_success _ _ _ _ _ _ _ _ _ Hcall Hok)
         as (_ & e & _ & _ & ->); eexists; (split; [|reflexivity]); by left.
  1-3: destruct (oscillate_success _ _ _ _ _ _ _ _ _ Hcall Hok)
         as (_ & _ & _ & e & _ & _ & ->); eexists; (split; [|reflexivity]); by right.
  unfold pulseImmediate in Hcall.
  destruct (oscillate pn p v 1 (t, w)) as [[id [t1 w1]]| |] eqn:Hosc;
    cbn [bind] in Hcall; [|done..].
  assert (id = i) as ->.
  { by destruct (_ && _); [destruct (store _ _ _); [|done..]|];
      cbn [bind] in Hcall; injection Hcall. }
  destruct (oscillate_success _ _ _ _ _ _ _ _ _ Hosc Hok)
    as ([H0 HN] & _ & _ & e & He & _ & ->).
  cbn [_numberOfEvents] in Hcall.
  destruct (Z.leb_spec 0 i); [|lia].
  destruct (Z.ltb_spec i (_numberOfEvents t)); [|lia]. cbn [andb] in Hcall.
  erewrite store_Z in Hcall; [|done|]; cycle 1.
  { cbn [_events]. apply list_lookup_insert_eq. by eapply lookup_lt_Some. }
  cbn [bind _numberOfEvents _events _events_storage] in Hcall.
  rewrite list_insert_insert_eq in Hcall. injection Hcall as <- <-.
  eexists. split; [|reflexivity]. by right.
Qed.

Lemma register_returns_scan r t w i s' :
  register r (t, w) = Done (i, s') -> findFreeEventIndex t = Done i.
Proof using NO_TIMER_AVAILABLE_range.
  destruct r; cbn [register]; unfold every3, after, oscillate3, pulse;
    try apply every_returns_scan; try apply oscillate_returns_scan.
  unfold pulseImmediate.
  destruct (oscillate _ _ _ 1 (t, w)) as [[id [t1 w1]]| |] eqn:Hosc;
    cbn [bind]; [|done..].
  apply oscillate_returns_scan in Hosc.
  destruct (_ && _); [destruct (store _ _ _); [|done..]|]; cbn [bind];
    by intros [= <- _].
Qed.

Lemma register_sentinel r s s' :
  register r s = Done (NO_TIMER_AVAILABLE, s') -> s' = s.
Proof using NO_TIMER_AVAILABLE_range.
  destruct r; cbn [register]; unfold every3, after, oscillate3, pulse;
    try apply every_sentinel; try apply oscillate_sentinel.
  unfold pulseImmediate.
  destruct (oscillate _ _ _ 1 s) as [[id [t1 w1]]| |] eqn:Hosc;
    cbn [bind]; [|done..].
  destruct (Z.leb_spec 0 id); cbn [andb].
  - destruct (_ <? _); [destruct (store _ _ _); [|done..]|]; cbn [bind];
      intros [= -> _]; lia.
  - intros [= -> <-]. by apply oscillate_sentinel in Hosc.
Qed.

(** X3.  A successful [every(period, callback, repeatCount, context)] claims
    the lowest free slot and returns its index, which is at most 127.  It
    stores kind, period, repeat count, callback and context as given, the
    time of the call and count 0; it leaves the pin fields of the slot as
    they were, reads the clock once and writes no pin. *)
Theorem every_claims_lowest_free_slot p cb rc ctx t w i t' w' :
  every p cb rc ctx (t, w) = Done (i, (t', w')) ->
  i <> NO_TIMER_AVAILABLE ->
  0 <= i <= 127 /\ i < _numberOfEvents t /\
  (forall m, (m < Z.to_nat i)%nat -> occupied t m) /\
  trace w' = trace w /\ reads w' = S (reads w) /\
  exists e,
    _events t !! Z.to_nat i = Some e /\ eventType e = EVENT_NONE /\
    _events t'
    = <[Z.to_nat i := mkEvent EVENT_EVERY p rc (pin e) (pinState e) cb
                        (to_ulong (clock w (reads w))) 0 ctx]> (_events t).
Proof using NO_TIMER_AVAILABLE_range.
  intros Hcall Hok.
  pose proof (every_returns_scan _ _ _ _ _ _ _ _ Hcall) as Hscan.
  destruct (findFreeEventIndex_returns_lowest_free_aux t i Hscan Hok)
    as (k & e & -> & Hk & HN & He & Hfree & Hbelow).
  destruct (every_success _ _ _ _ _ _ _ _ _ Hcall Hok)
    as (-> & e' & _ & He' & ->).
  rewrite Nat2Z.id in *. rewrite He in He'. injection He' as <-.
  split; [lia|]. do 4 (split; [done|]). by exists e.
Qed.

(** X4.  A registration of any kind returns exactly what the scan of
    [findFreeEventIndex] returned, and whenever that is
    [NO_TIMER_AVAILABLE] the timer and the board are as they were before
    the call: no slot written, no pin written, the clock not read. *)
Theorem registration_returns_scan_result r t w i s' :
  register r (t, w) = Done (i, s') ->
  findFreeEventIndex t = Done i /\
  (i = NO_TIMER_AVAILABLE -> s' = (t, w)).
Proof using NO_TIMER_AVAILABLE_range.
  intros Hcall. split; [by eapply register_returns_scan|].
  intros ->. by apply register_sentinel in Hcall.
Qed.

(** X5.  A registration never disturbs the rest of the timer: capacity,
    storage and the number of slots stay, and every slot other than the one
    whose index is returned is as it was.  The returned slot was free and is
    occupied afterwards; its index is at most 127. *)
Theorem registration_keeps_other_slots
    (HE : EVENT_EVERY <> EVENT_NONE) (HO : EVENT_OSCILLATE <> EVENT_NONE)
    r t w i t' w' :
  register r (t, w) = Done (i, (t', w')) ->
  _numberOfEvents t' = _numberOfEvents t /\
  _events_storage t' = _events_storage t /\
  length (_events t') = length (_events t) /\
  (forall j : nat, Z.of_nat j <> i -> _events t' !! j = _events t !! j) /\
  (i <> NO_TIMER_AVAILABLE ->
   0 <= i <= 127 /\ i < _numberOfEvents t /\
   (exists e, _events t !! Z.to_nat i = Some e /\ eventType e = EVENT_NONE) /\
   occupied t' (Z.to_nat i)).
Proof using NO_TIMER_AVAILABLE_range.
  intros Hcall.
  destruct (decide (i = NO_TIMER_AVAILABLE)) as [->|Hok].
  { apply register_sentinel in Hcall. injection Hcall as -> ->.
    by repeat split. }
  pose proof (register_returns_scan _ _ _ _ _ Hcall) as Hscan.
  destruct (findFreeEventIndex_returns_lowest_free_aux t i Hscan Hok)
    as (k & e & -> & Hk & HN & He & Hfree & _).
  destruct (register_writes_one_slot _ _ _ _ _ _ Hcall Hok)
    as (slot & Hkind & ->).
  rewrite Nat2Z.id. cbn [_numberOfEvents _events _events_storage].
  split; [done|]. split; [done|]. split; [by rewrite length_insert|].
  split.
  - intros j Hj. apply list_lookup_insert_ne. lia.
  - intros _. split; [lia|]. split; [done|]. split; [by exists e|].
    exists slot. cbn [_events]. split.
    + apply list_lookup_insert_eq. by eapply lookup_lt_Some.
    + destruct Hkind as [-> | ->]; done.
Qed.

(** X6.  The default-constructed timer allocates nothing and is a fresh
    table of [DEFAULT_NUMBER_OF_EVENTS] slots: while that is at most 127,
    its registrations return 0, 1, 2, ... in turn, and once it is full a
    further registration returns the sentinel and changes nothing. *)
Theorem default_timer_registrations
    (HE : EVENT_EVERY <> EVENT_NONE) (HO : EVENT_OSCILLATE <> EVENT_NONE)
    w rs ids s' :
  0 <= DEFAULT_NUMBER_OF_EVENTS <= 127 ->
  Z.of_nat (length rs) <= DEFAULT_NUMBER_OF_EVENTS ->
  register_all rs (Timer_void w) = Done (ids, s') ->
  snd (Timer_void w) = w /\
  ids = Z.of_nat <$> seq 0 (length rs) /\
  (Z.of_nat (length rs) = DEFAULT_NUMBER_OF_EVENTS ->
   forall r, register r s' = Done (NO_TIMER_AVAILABLE, s')).
Proof using NO_TIMER_AVAILABLE_range INT_BITS_min.
  intros HD Hlen Hrun. split; [done|].
  pose proof (Timer_void_filled w ltac:(lia)) as Hfresh.
  unfold Timer_void in *. cbn [fst] in Hfresh.
  apply (register_all_filled HE HO) with (k := 0%nat) in Hrun
    as (-> & Hfilled & HN'); [|done|cbn; lia..].
  split; [done|]. intros Hfull r. destruct s' as [t1 w1].
  cbn [fst _numberOfEvents] in *.
  apply register_full; [apply Hfilled| |lia].
  eapply filled_full; [done|lia].
Qed.

(** X7.  On a table of at most 127 slots none of which is free, each of the
    seven registration calls returns [NO_TIMER_AVAILABLE] and leaves the
    timer and the board as they were; [oscillate] does so whatever its
    repeat count, which is not doubled on this path. *)
Theorem full_table_refuses_registration t w :
  wf t -> full t -> _numberOfEvents t <= 127 ->
  (forall p cb rc ctx,
     every p cb rc ctx (t, w) = Done (NO_TIMER_AVAILABLE, (t, w))) /\
  (forall p cb ctx, every3 p cb ctx (t, w) = Done (NO_TIMER_AVAILABLE, (t, w))) /\
  (forall p cb ctx, after p cb ctx (t, w) = Done (NO_TIMER_AVAILABLE, (t, w))) /\
  (forall pn p v rc,
     oscillate pn p v rc (t, w) = Done (NO_TIMER_AVAILABLE, (t, w))) /\
  (forall pn p v,
     oscillate3 pn p v (t, w) = Done (NO_TIMER_AVAILABLE, (t, w))) /\
  (forall pn p v, pulse pn p v (t, w) = Done (NO_TIMER_AVAILABLE, (t, w))) /\
  (forall pn p v,
     pulseImmediate pn p v (t, w) = Done (NO_TIMER_AVAILABLE, (t, w))).
Proof using NO_TIMER_AVAILABLE_range.
  intros Hwf Hfull HN.
  pose proof (fun r => register_full t w r Hwf Hfull HN) as Hreg.
  repeat split; intros.
  - apply (Hreg (REvery p cb rc ctx)).
  - apply (Hreg (REvery3 p cb ctx)).
  - apply (Hreg (RAfter p cb ctx)).
  - apply (Hreg (ROscillate pn p v rc)).
  - apply (Hreg (ROscillate3 pn p v)).
  - apply (Hreg (RPulse pn p v)).
  - apply (Hreg (RPulseImmediate pn p v)).
Qed.

(** *** stop and what follows it *)

(** X8.  [stop] is idempotent: stopping an id a second time returns the same
    value and leaves the timer as the first [stop] left it. *)
Theorem stop_twice_is_stop_once t id r t1 :
  stop id t = Done (r, t1) -> stop id t1 = Done (r, t1).
Proof.
  intros [(Hin & e & He & -> & ->)|(Hout & -> & ->)]%stop_cases.
  - erewrite stop_in_table; [|done|]; cycle 1.
    { cbn [_events]. apply list_lookup_insert_eq. by eapply lookup_lt_Some. }
    cbn [_numberOfEvents _events _events_storage].
    by rewrite list_insert_insert_eq.
  - by apply stop_outside.
Qed.

(** After [stop] of a slot whose lower neighbours are all occupied, the
    scan returns that slot. *)
Lemma scan_after_stop t id e :
  0 <= id < _numberOfEvents t -> id <= 127 ->
  _events t !! Z.to_nat id = Some e ->
  (forall m, (m < Z.to_nat id)%nat -> occupied t m) ->
  findFreeEventIndex
    (mkTimer (_numberOfEvents t)
       (<[Z.to_nat id := set_eventType EVENT_NONE e]> (_events t))
       (_events_storage t))
  = Done id.
Proof.
  intros Hin H127 He Hbelow.
  transitivity (@Done Z (Z.of_nat (Z.to_nat id)));
    [|by rewrite Z2Nat.id by lia].
  rewrite <- (Nat.add_0_l (Z.to_nat id)) at 1.
  apply (findFree_loop_found (Z.to_nat id) INT8_VALUES _ 0%nat
           (set_eventType EVENT_NONE e));
    [unfold INT8_VALUES; lia|lia|cbn; lia| |done|].
  - cbn [_events]. apply list_lookup_insert_eq. by eapply lookup_lt_Some.
  - intros m Hm. destruct (Hbelow m ltac:(lia)) as (em & Hem & Hocc).
    exists em. split; [|done]. cbn [_events].
    rewrite list_lookup_insert_ne by lia. done.
Qed.

(** X9.  A stopped slot is the next one handed out when the slots below it
    are occupied: after [stop(id)] the scan returns [id], so every
    registration that returns does return [id], and [every] does return.
    This holds for any capacity, since [id] is at most 127. *)
Theorem stopped_slot_is_reused t id r0 t1 w :
  wf t -> 0 <= id < _numberOfEvents t -> id <= 127 ->
  (forall m, (m < Z.to_nat id)%nat -> occupied t m) ->
  stop id t = Done (r0, t1) ->
  findFreeEventIndex t1 = Done id /\
  (forall r i s', register r (t1, w) = Done (i, s') -> i = id) /\
  (forall p cb rc ctx, exists s', every p cb rc ctx (t1, w) = Done (id, s')).
Proof using NO_TIMER_AVAILABLE_range.
  intros Hwf Hin H127 Hbelow Hstop%stop_cases.
  rewrite (to_int8_id id) in Hstop by lia.
  destruct Hstop as [(_ & e & He & -> & ->)|(Hout & _)]; [|done].
  pose proof (scan_after_stop t id e Hin H127 He Hbelow) as Hscan.
  split; [done|]. split.
  - intros r i s' Hcall. apply register_returns_scan in Hcall. congruence.
  - intros p cb rc ctx. unfold every. rewrite Hscan. cbn [bind].
    destruct (Z.eqb_spec id NO_TIMER_AVAILABLE); [lia|].
    destruct (millis w) as [now w1].
    erewrite store_Z; [|lia|]; cycle 1.
    { cbn [_events]. apply list_lookup_insert_eq. by eapply lookup_lt_Some. }
    cbn [bind]. by eexists.
Qed.

(** X14.  Registering and stopping give the slot back: after a successful
    registration returned [i], [stop(i)] returns [TIMER_NOT_AN_EVENT] and
    the scan returns [i] again, so the next registration reuses that
    slot. *)
Theorem stop_gives_registered_slot_back r t w i t1 w1 :
  register r (t, w) = Done (i, (t1, w1)) -> i <> NO_TIMER_AVAILABLE ->
  exists t2,
    stop i t1 = Done (TIMER_NOT_AN_EVENT, t2) /\
    findFreeEventIndex t2 = Done i /\
    (forall j : nat, Z.of_nat j <> i -> _events t2 !! j = _events t !! j).
Proof using NO_TIMER_AVAILABLE_range TIMER_NOT_AN_EVENT_range.
  intros Hcall Hok.
  pose proof (register_returns_scan _ _ _ _ _ Hcall) as Hscan.
  destruct (findFreeEventIndex_returns_lowest_free_aux t i Hscan Hok)
    as (k & e & -> & Hk & HN & He & Hfree & Hbelow).
  destruct (register_writes_one_slot _ _ _ _ _ _ Hcall Hok)
    as (slot & _ & ->).
  clear Hcall. rewrite Nat2Z.id.
  assert (<[k := slot]> (_events t) !! k = Some slot) as Hslot.
  { apply list_lookup_insert_eq. by eapply lookup_lt_Some. }
  assert (to_int8 (Z.of_nat k) = Z.of_nat k) as Hk8 by (apply to_int8_id; lia).
  exists (mkTimer (_numberOfEvents t)
            (<[k := set_eventType EVENT_NONE slot]>
               (<[k := slot]> (_events t)))
            (_events_storage t)).
  split; [|split].
  - pose proof (stop_in_table
        (mkTimer (_numberOfEvents t) (<[k := slot]> (_events t))
           (_events_storage t)) (Z.of_nat k) slot) as Hstop.
    rewrite Hk8, Nat2Z.id in Hstop.
    rewrite (to_int8_id TIMER_NOT_AN_EVENT) in Hstop by lia.
    apply Hstop; [cbn [_numberOfEvents]; lia|exact Hslot].
  - pose proof (scan_after_stop
        (mkTimer (_numberOfEvents t) (<[k := slot]> (_events t))
           (_events_storage t)) (Z.of_nat k) slot) as Hrescan.
    rewrite Nat2Z.id in Hrescan.
    cbn [_numberOfEvents _events _events_storage] in Hrescan.
    apply Hrescan; [lia|lia|exact Hslot|].
    intros m Hm.
    destruct (Hbelow m Hm) as (em & Hem & Hocc).
    exists em. split; [|done]. cbn [_events].
    rewrite list_lookup_insert_ne by lia. done.
  - intros j Hj. cbn [_events _numberOfEvents _events_storage].
    rewrite !list_lookup_insert_ne by lia. done.
Qed.

(** *** Release of the table *)

Lemma filter_other_blocks (b : nat) (l : list nat) :
  b ∉ l -> filter (fun b' => b' <> b) l = l.
Proof.
  induction l as [|x l IH]; intros Hb; [done|].
  apply not_elem_of_cons in Hb as [Hx Hl].
  rewrite filter_cons_True by done. by rewrite IH.
Qed.

(** X11.  A scheduler built with the sized constructor for a capacity other
    than [DEFAULT_NUMBER_OF_EVENTS] owns one fresh heap block, and its
    destructor releases exactly that block, once: afterwards the live
    blocks are those from before the construction.  A default-constructed
    scheduler allocates nothing and its destructor releases nothing. *)
Theorem destructor_releases_sized_table n w :
  n <> DEFAULT_NUMBER_OF_EVENTS -> next_block w ∉ live w ->
  (exists w2,
     Timer_destroy (fst (Timer_byte n w)) (snd (Timer_byte n w)) = Done w2 /\
     _events_storage (fst (Timer_byte n w)) = HeapBlock (next_block w) /\
     live (snd (Timer_byte n w)) = next_block w :: live w /\
     released w2 = released w ++ [next_block w] /\
     live w2 = live w) /\
  Timer_destroy (fst (Timer_void w)) (snd (Timer_void w)) = Done w.
Proof.
  intros Hn Hfresh. split.
  - unfold Timer_destroy, Timer_byte. cbn.
    destruct (Z.eqb_spec n DEFAULT_NUMBER_OF_EVENTS); [done|]. cbn.
    eexists. split; [done|]. do 3 (split; [done|]). cbn.
    destruct (decide (next_block w <> next_block w)); [done|].
    by apply filter_other_blocks.
  - unfold Timer_destroy, Timer_void. cbn. by rewrite Z.eqb_refl.
Qed.

(** *** Doubling the repeat count *)

(** X12.  When the scan has found a free slot, [oscillate] has a defined
    result exactly when twice the repeat count fits an [int]; it then
    returns the index the scan found.  When the scan has reported the
    sentinel, [oscillate] returns it for every repeat count. *)
Theorem oscillate_defined_iff_count_fits pn p v rc t w i :
  findFreeEventIndex t = Done i ->
  (i <> NO_TIMER_AVAILABLE ->
   (in_int (rc * 2) = true ->
    exists s', oscillate pn p v rc (t, w) = Done (i, s')) /\
   (in_int (rc * 2) = false -> oscillate pn p v rc (t, w) = Undefined)) /\
  (i = NO_TIMER_AVAILABLE ->
   oscillate pn p v rc (t, w) = Done (NO_TIMER_AVAILABLE, (t, w))).
Proof using NO_TIMER_AVAILABLE_range.
  intros Hscan. unfold oscillate. rewrite Hscan. cbn [bind]. split.
  - intros Hok. destruct (Z.eqb_spec i NO_TIMER_AVAILABLE); [done|].
    destruct (findFreeEventIndex_success t i Hscan Hok)
      as (Hi & e & He & _).
    unfold int_mul. split; intros ->; [|done]. cbn [bind].
    destruct (millis _) as [now w2].
    erewrite store_Z by (done || lia). cbn [bind]. by eexists.
  - intros ->. rewrite Z.eqb_refl. by rewrite to_int8_id by lia.
Qed.

(** *** pulseImmediate against pulse *)

(** X13.  [pulseImmediate] returns whenever [pulse] does, with the same
    index and the same effect on the board.  The two timers differ only in
    the repeat count of the claimed slot, 1 instead of 2; when the sentinel
    is returned they do not differ.  So the range check in
    [pulseImmediate] rejects exactly the sentinel. *)
Theorem pulseImmediate_is_pulse_with_count_one pn p v t w i t1 w1 :
  pulse pn p v (t, w) = Done (i, (t1, w1)) ->
  exists t2,
    pulseImmediate pn p v (t, w) = Done (i, (t2, w1)) /\
    _numberOfEvents t2 = _numberOfEvents t1 /\
    _events_storage t2 = _events_storage t1 /\
    (i = NO_TIMER_AVAILABLE -> t2 = t1) /\
    (i <> NO_TIMER_AVAILABLE ->
     exists slot,
       _events t1 !! Z.to_nat i = Some slot /\ repeatCount slot = 2 /\
       _events t2 = <[Z.to_nat i := set_repeatCount 1 slot]> (_events t1)).
Proof using NO_TIMER_AVAILABLE_range.
  unfold pulse, pulseImmediate. intros Hosc. rewrite Hosc. cbn [bind].
  destruct (decide (i = NO_TIMER_AVAILABLE)) as [->|Hok].
  - destruct (Z.leb_spec 0 NO_TIMER_AVAILABLE); [lia|]. cbn [andb].
    exists t1. by repeat split.
  - destruct (oscillate_success _ _ _ _ _ _ _ _ _ Hosc Hok)
      as ([H0 HN] & _ & _ & e & He & _ & ->).
    cbn [_numberOfEvents].
    destruct (Z.leb_spec 0 i); [|lia].
    destruct (Z.ltb_spec i (_numberOfEvents t)); [|lia]. cbn [andb].
    assert (<[Z.to_nat i := mkEvent EVENT_OSCILLATE p (1 * 2) pn v 0
               (fst (millis (digitalWrite pn v w))) 0 0]> (_events t)
            !! Z.to_nat i
            = Some (mkEvent EVENT_OSCILLATE p (1 * 2) pn v 0
                      (fst (millis (digitalWrite pn v w))) 0 0)) as Hslot.
    { apply list_lookup_insert_eq. by eapply lookup_lt_Some. }
    erewrite store_Z by done. cbn [bind].
    eexists. split; [reflexivity|].
    cbn [_numberOfEvents _events _events_storage].
    do 3 (split; [done|]). intros _. eexists. by split; [exact Hslot|].
Qed.

(** ** The pass of update

    [Timer::update] with callbacks that may register and stop timers while
    the pass runs. *)

(** *** No call runs out of fuel *)

Lemma bind_ends {A B} (m : outcome A) (k : A -> outcome B) :
  m <> OutOfFuel -> (forall a, m = Done a -> k a <> OutOfFuel) ->
  bind m k <> OutOfFuel.
Proof. destruct m as [a| |]; cbn; [auto|done..]. Qed.

Lemma load_ends t i : load t i <> OutOfFuel.
Proof. unfold load. by repeat case_match. Qed.

Lemma store_ends t i f : store t i f <> OutOfFuel.
Proof. unfold store. apply bind_ends; [apply load_ends|done]. Qed.

Lemma every_ends p cb rc ctx s : every p cb rc ctx s <> OutOfFuel.
Proof.
  destruct s as [t w]. unfold every.
  apply bind_ends; [apply findFreeEventIndex_ends|]. intros i _.
  destruct (i =? _); [done|]. destruct (millis w).
  apply bind_ends; [apply store_ends|done].
Qed.

Lemma oscillate_ends pn p v rc s : oscillate pn p v rc s <> OutOfFuel.
Proof.
  destruct s as [t w]. unfold oscillate.
  apply bind_ends; [apply findFreeEventIndex_ends|]. intros i _.
  destruct (i =? _); [done|]. cbv zeta.
  apply bind_ends; [unfold int_mul; by case_match|]. intros n _.
  destruct (millis _). apply bind_ends; [apply store_ends|done].
Qed.

Lemma register_ends r s : register r s <> OutOfFuel.
Proof.
  destruct r; cbn [register]; unfold every3, after, oscillate3, pulse;
    try apply every_ends; try apply oscillate_ends.
  unfold pulseImmediate. apply bind_ends; [apply oscillate_ends|].
  intros [id [t w]] _. destruct (_ && _); [|done].
  apply bind_ends; [apply store_ends|done].
Qed.

Lemma stop_ends id t : stop id t <> OutOfFuel.
Proof.
  unfold stop. cbv zeta. destruct (_ && _); [|done].
  apply bind_ends; [apply store_ends|done].
Qed.

Lemma run_script_ends acts : forall s, run_script acts s <> OutOfFuel.
Proof.
  induction acts as [|[r|id] acts IH]; intros [t w]; cbn [run_script]; [done|..].
  - apply bind_ends; [apply register_ends|]. by intros [i s1] _.
  - apply bind_ends; [apply stop_ends|]. by intros [i t1] _.
Qed.

Lemma run_callback_ends cb ctx s : run_callback cb ctx s <> OutOfFuel.
Proof. destruct s as [t w]. apply run_script_ends. Qed.

Lemma Event_action_at_ends i s : Event_action_at i s <> OutOfFuel.
Proof.
  destruct s as [t w]. unfold Event_action_at.
  apply bind_ends; [apply load_ends|]. intros e _.
  destruct (eventType e =? EVENT_EVERY).
  - apply bind_ends.
    + destruct (callback e =? 0); [done|apply run_callback_ends].
    + intros [t1 w1] _. apply bind_ends; [apply store_ends|done].
  - destruct (eventType e =? EVENT_OSCILLATE); [|done].
    apply bind_ends; [apply store_ends|done].
Qed.

Lemma Event_fire_at_ends i now s : Event_fire_at i now s <> OutOfFuel.
Proof.
  destruct s as [t w]. unfold Event_fire_at.
  apply bind_ends; [apply store_ends|]. intros t1 _.
  apply bind_ends; [apply Event_action_at_ends|]. intros [t2 w2] _.
  apply bind_ends; [apply store_ends|done].
Qed.

Lemma Event_update_at_ends i s : Event_update_at i s <> OutOfFuel.
Proof.
  destruct s as [t w]. unfold Event_update_at.
  apply bind_ends; [apply load_ends|]. intros e _.
  destruct (millis w) as [now w1]. destruct (repeatCount e =? 0).
  - apply bind_ends; [apply store_ends|done].
  - destruct (Event_due now e); [apply Event_fire_at_ends|done].
Qed.

(** The loop of [update] always ends within its fuel. *)
Lemma update_loop_ends d : forall fuel s j,
  (S d < fuel)%nat -> (j + d = 127)%nat ->
  update_loop fuel (Z.of_nat j) s <> OutOfFuel.
Proof.
  assert (forall fuel s, update_loop (S fuel) (-128) s <> OutOfFuel) as Hwrap.
  { intros fuel [t w]. cbn [update_loop].
    destruct (_ <? _); [|done]. by rewrite load_negative. }
  induction d as [|d IH]; intros fuel [t w] j Hfuel Hj;
    (destruct fuel as [|fuel]; [lia|]); cbn [update_loop];
    (destruct (Z.ltb_spec (Z.of_nat j) (_numberOfEvents t)); [|done]);
    (apply bind_ends; [apply load_ends|]); intros e _.
  - assert (j = 127%nat) as -> by lia. rewrite to_int8_wraps.
    destruct fuel as [|fuel]; [lia|].
    destruct (negb _); [|apply Hwrap].
    apply bind_ends; [apply Event_update_at_ends|]. intros s1 _. apply Hwrap.
  - rewrite to_int8_next by lia.
    destruct (negb _); [|apply IH; lia].
    apply bind_ends; [apply Event_update_at_ends|]. intros s1 _.
    apply IH; lia.
Qed.

Lemma update_from_slot_0 s :
  update s = update_loop INT8_VALUES (Z.of_nat 0) s.
Proof. reflexivity. Qed.

Lemma update_ends s : update s <> OutOfFuel.
Proof.
  apply (update_loop_ends 127 INT8_VALUES s 0%nat); unfold INT8_VALUES; lia.
Qed.

(** X16.  Neither loop of Timer.cpp goes round its [int8_t] counter more
    than once: the scan of [findFreeEventIndex] and the pass of [update]
    end, in a result or in an access outside the table, within 256
    iterations on every timer. *)
Theorem loops_end_within_one_counter_round t w :
  findFreeEventIndex t <> OutOfFuel /\ update (t, w) <> OutOfFuel.
Proof. split; [apply findFreeEventIndex_ends|apply update_ends]. Qed.

(** *** What a call keeps of the table *)

(** A [bind] that is [Done] had a first part that is [Done]. *)
Ltac bind_Done H x Hx :=
  match type of H with
  | bind ?m _ = Done _ =>
      destruct m as [x| |] eqn:Hx; cbn [bind] in H; [|discriminate H..]
  end.

Lemma same_frame_refl t : same_frame t t.
Proof. done. Qed.

Lemma same_frame_trans t1 t2 t3 :
  same_frame t1 t2 -> same_frame t2 t3 -> same_frame t1 t3.
Proof. unfold same_frame. intros (? & ? & ?) (? & ? & ?). repeat split; congruence. Qed.

Lemma same_frame_wf t t' : same_frame t t' -> wf t -> wf t'.
Proof. unfold same_frame, wf. intros (? & ? & ?) ?. congruence. Qed.

Lemma store_cases t i f t' :
  store t i f = Done t' ->
  exists e, 0 <= i /\ _events t !! Z.to_nat i = Some e /\
    t' = mkTimer (_numberOfEvents t) (<[Z.to_nat i := f e]> (_events t))
           (_events_storage t).
Proof.
  unfold store. intros H. bind_Done H e He. injection H as <-.
  apply load_Done in He as [H0 He]. eauto.
Qed.

Lemma store_frame t i f t' : store t i f = Done t' -> same_frame t t'.
Proof.
  intros (e & _ & _ & ->)%store_cases. unfold same_frame. cbn.
  by rewrite length_insert.
Qed.

(** A registration leaves the timer alone or writes one slot, which was
    free, with the repeat count of [stored_count]. *)
Lemma register_cases r t w i t' w' :
  register r (t, w) = Done (i, (t', w')) ->
  t' = t \/
  exists e slot,
    _events t !! Z.to_nat i = Some e /\ eventType e = EVENT_NONE /\
    repeatCount slot = stored_count r /\
    t' = mkTimer (_numberOfEvents t) (<[Z.to_nat i := slot]> (_events t))
           (_events_storage t).
Proof using NO_TIMER_AVAILABLE_range.
  intros Hcall.
  destruct (decide (i = NO_TIMER_AVAILABLE)) as [->|Hok].
  { left. apply register_sentinel in Hcall. by injection Hcall. }
  right.
  pose proof (register_returns_scan _ _ _ _ _ Hcall) as Hscan.
  destruct (findFreeEventIndex_success t i Hscan Hok) as (_ & e & He & Hfree).
  exists e.
  destruct r as [p cb rc ctx|p cb ctx|p cb ctx|pn p v rc|pn p v|pn p v|pn p v];
    cbn [register stored_count] in *;
    unfold every3, after, oscillate3, pulse in Hcall.
  1-3: destruct (every_success _ _ _ _ _ _ _ _ _ Hcall Hok)
         as (_ & e0 & _ & _ & ->); eexists; by repeat split.
  1-3: destruct (oscillate_success _ _ _ _ _ _ _ _ _ Hcall Hok)
         as (_ & _ & _ & e0 & _ & _ & ->); eexists; by repeat split.
  unfold pulseImmediate in Hcall.
  destruct (oscillate pn p v 1 (t, w)) as [[id [t1 w1]]| |] eqn:Hosc;
    cbn [bind] in Hcall; [|done..].
  assert (id = i) as ->.
  { by destruct (_ && _); [destruct (store _ _ _); [|done..]|];
      cbn [bind] in Hcall; injection Hcall. }
  destruct (oscillate_success _ _ _ _ _ _ _ _ _ Hosc Hok)
    as ([H0 HN] & _ & _ & e0 & He0 & _ & ->).
  cbn [_numberOfEvents] in Hcall.
  destruct (Z.leb_spec 0 i); [|lia].
  destruct (Z.ltb_spec i (_numberOfEvents t)); [|lia]. cbn [andb] in Hcall.
  erewrite store_Z in Hcall; [|done|]; cycle 1.
  { cbn [_events]. apply list_lookup_insert_eq. by eapply lookup_lt_Some. }
  cbn [bind _numberOfEvents _events _events_storage] in Hcall.
  rewrite list_insert_insert_eq in Hcall. injection Hcall as <- <-.
  eexists. by repeat split.
Qed.

Lemma every_frame p cb rc ctx t w i t' w' :
  every p cb rc ctx (t, w) = Done (i, (t', w')) -> same_frame t t'.
Proof.
  unfold every. intros H. bind_Done H i0 Hscan.
  destruct (i0 =? _); [by injection H as _ <- _|].
  destruct (millis w) as [now w1]. bind_Done H t1 Ht1.
  injection H as _ <- _. by eapply store_frame.
Qed.

Lemma oscillate_frame pn p v rc t w i t' w' :
  oscillate pn p v rc (t, w) = Done (i, (t', w')) -> same_frame t t'.
Proof.
  unfold oscillate. intros H. bind_Done H i0 Hscan.
  destruct (i0 =? _); [by injection H as _ <- _|]. cbv zeta in H.
  bind_Done H n Hn. destruct (millis _) as [now w1]. bind_Done H t1 Ht1.
  injection H as _ <- _. by eapply store_frame.
Qed.

Lemma register_frame r t w i t' w' :
  register r (t, w) = Done (i, (t', w')) -> same_frame t t'.
Proof.
  destruct r; cbn [register]; unfold every3, after, oscillate3, pulse;
    try apply every_frame; try apply oscillate_frame.
  unfold pulseImmediate. intros H. bind_Done H x Hx.
  destruct x as [id [t1 w1]]. apply oscillate_frame in Hx.
  destruct (_ && _); [|by injection H as _ <- _].
  bind_Done H t2 Ht2. injection H as _ <- _.
  eapply same_frame_trans; [done|by eapply store_frame].
Qed.

Lemma stop_frame id t r t' : stop id t = Done (r, t') -> same_frame t t'.
Proof.
  intros [(_ & e & _ & _ & ->)|(_ & _ & ->)]%stop_cases; [|done].
  unfold same_frame. cbn. by rewrite length_insert.
Qed.

Lemma run_script_frame acts : forall t w t' w',
  run_script acts (t, w) = Done (t', w') -> same_frame t t'.
Proof.
  induction acts as [|[r|id] acts IH]; intros t w t' w' Hrun;
    cbn [run_script] in Hrun.
  - by injection Hrun as <- <-.
  - bind_Done Hrun x Hx. destruct x as [i [t1 w1]].
    eapply same_frame_trans; [by eapply register_frame|by eapply IH].
  - bind_Done Hrun x Hx. destruct x as [i t1].
    eapply same_frame_trans; [by eapply stop_frame|by eapply IH].
Qed.

Lemma Event_action_at_frame i t w t' w' :
  Event_action_at i (t, w) = Done (t', w') -> same_frame t t'.
Proof.
  unfold Event_action_at. intros H. bind_Done H e He.
  destruct (eventType e =? EVENT_EVERY).
  - bind_Done H x Hx. destruct x as [t1 w1]. bind_Done H t2 Ht2.
    injection H as <- <-.
    eapply same_frame_trans; [|by eapply store_frame].
    destruct (callback e =? 0); [by injection Hx as <- <-|].
    by eapply run_script_frame.
  - destruct (eventType e =? EVENT_OSCILLATE).
    + bind_Done H t1 Ht1. injection H as <- <-. by eapply store_frame.
    + by injection H as <- <-.
Qed.

Lemma Event_fire_at_frame i now t w t' w' :
  Event_fire_at i now (t, w) = Done (t', w') -> same_frame t t'.
Proof.
  unfold Event_fire_at. intros H. bind_Done H t1 Ht1.
  bind_Done H x Hx. destruct x as [t2 w2]. bind_Done H t3 Ht3.
  injection H as <- <-.
  eapply same_frame_trans; [by eapply store_frame|].
  eapply same_frame_trans; [by eapply Event_action_at_frame|].
  by eapply store_frame.
Qed.

Lemma Event_update_at_frame i t w t' w' :
  Event_update_at i (t, w) = Done (t', w') -> same_frame t t'.
Proof.
  unfold Event_update_at. intros H. bind_Done H e He.
  destruct (millis w) as [now w1]. destruct (repeatCount e =? 0).
  - bind_Done H t1 Ht1. injection H as <- <-. by eapply store_frame.
  - destruct (Event_due now e).
    + by eapply Event_fire_at_frame.
    + by injection H as <- <-.
Qed.

(** *** Tables of 128 slots and more *)

(** With 128 slots or more the pass never completes: after slot 127 the
    [int8_t] counter wraps to -128, which is below the capacity, and the
    next read is outside the table. *)
Lemma update_loop_overflow d : forall fuel t w j,
  (S d < fuel)%nat -> (j + d = 127)%nat ->
  wf t -> 128 <= _numberOfEvents t ->
  update_loop fuel (Z.of_nat j) (t, w) = Undefined.
Proof.
  assert (forall fuel t w, 128 <= _numberOfEvents t ->
            update_loop (S fuel) (-128) (t, w) = Undefined) as Hwrap.
  { intros fuel t w HN. cbn [update_loop].
    destruct (Z.ltb_spec (-128) (_numberOfEvents t)); [|lia].
    by rewrite load_negative. }
  induction d as [|d IH]; intros fuel t w j Hfuel Hj Hwf HN;
    (destruct fuel as [|fuel]; [lia|]); cbn [update_loop];
    (destruct (Z.ltb_spec (Z.of_nat j) (_numberOfEvents t)); [|lia]);
    (destruct (wf_lookup t j Hwf) as [e He]; [lia|]);
    rewrite load_nat, He; cbn [bind].
  - assert (j = 127%nat) as -> by lia. rewrite to_int8_wraps.
    destruct fuel as [|fuel]; [lia|].
    destruct (negb _); [|by apply Hwrap].
    destruct (Event_update_at _ _) as [[t1 w1]| |] eqn:Hslot; cbn [bind];
      [|done|by apply Event_update_at_ends in Hslot].
    apply Hwrap. apply Event_update_at_frame in Hslot as (-> & _). done.
  - rewrite to_int8_next by lia.
    destruct (negb _); [|apply IH; done || lia].
    destruct (Event_update_at _ _) as [[t1 w1]| |] eqn:Hslot; cbn [bind];
      [|done|by apply Event_update_at_ends in Hslot].
    pose proof (Event_update_at_frame _ _ _ _ _ Hslot) as Hframe.
    apply IH; [lia|lia|by eapply same_frame_wf|].
    destruct Hframe as (-> & _). done.
Qed.

(** X18.  On a table of 128 slots or more no pass of [update] completes,
    whatever the slots hold and whatever the callbacks do: after slot 127
    the counter wraps to -128 and the next read is outside the table. *)
Lemma update_overflow t w :
  wf t -> 128 <= _numberOfEvents t -> update (t, w) = Undefined.
Proof.
  intros Hwf HN. rewrite update_from_slot_0.
  apply (update_loop_overflow 127 INT8_VALUES t w 0%nat);
    [unfold INT8_VALUES; lia|lia|done|done].
Qed.

(** *** Callbacks that leave the timer alone *)

Section QuietCallbacks.

(** No callback calls the timer. *)
Hypothesis scripts_quiet : forall cb ctx s, callback_script cb ctx s = [].

(** The dispatch in place is then [Event_update] on the slot. *)
Lemma Event_update_at_quiet i t w e :
  load t i = Done e ->
  Event_update_at i (t, w)
  = Done (mkTimer (_numberOfEvents t)
            (<[Z.to_nat i := fst (Event_update e w)]> (_events t))
            (_events_storage t),
          snd (Event_update e w)).
Proof using scripts_quiet.
  intros Hload. unfold Event_update_at, Event_update. rewrite Hload.
  cbn [bind]. apply load_Done in Hload as [H0 He].
  assert (Z.to_nat i < length (_events t))%nat as Hlt
    by (by eapply lookup_lt_Some).
  destruct (millis w) as [now w1].
  destruct (repeatCount e =? 0); [by erewrite store_Z by done|].
  destruct (Event_due now e); cycle 1.
  { cbn [fst snd]. rewrite list_insert_id by done. by destruct t. }
  unfold Event_fire_at, Event_fire, Event_action_at, Event_action.
  erewrite store_Z by done. cbn [bind].
  unfold load. destruct (Z.leb_spec 0 i); [|lia].
  cbn [_events _numberOfEvents _events_storage].
  rewrite list_lookup_insert_eq by done. cbn [bind].
  change (eventType (set_lastEventTime now e)) with (eventType e).
  change (callback (set_lastEventTime now e)) with (callback e).
  change (context (set_lastEventTime now e)) with (context e).
  destruct (eventType e =? EVENT_EVERY).
  - assert ((if callback e =? 0
             then Done (mkTimer (_numberOfEvents t)
                          (<[Z.to_nat i := set_lastEventTime now e]>
                             (_events t)) (_events_storage t), w1)
             else run_callback (callback e) (context e)
                    (mkTimer (_numberOfEvents t)
                       (<[Z.to_nat i := set_lastEventTime now e]>
                          (_events t)) (_events_storage t), w1))
            = Done (mkTimer (_numberOfEvents t)
                      (<[Z.to_nat i := set_lastEventTime now e]> (_events t))
                      (_events_storage t),
                    if callback e =? 0 then w1
                    else invoke (callback e) (context e) w1)) as ->.
    { destruct (callback e =? 0); [done|].
      unfold run_callback. by rewrite scripts_quiet. }
    cbn [bind].
    erewrite store_Z; [|done|]; cycle 1.
    { cbn [_events]. by apply list_lookup_insert_eq. }
    cbn [bind _events _numberOfEvents _events_storage].
    rewrite list_insert_insert_eq.
    erewrite store_Z; [|done|]; cycle 1.
    { cbn [_events]. by apply list_lookup_insert_eq. }
    cbn [bind _events _numberOfEvents _events_storage fst snd].
    by rewrite list_insert_insert_eq.
  - destruct (eventType e =? EVENT_OSCILLATE).
    + cbv zeta. erewrite store_Z; [|done|]; cycle 1.
      { cbn [_events]. by apply list_lookup_insert_eq. }
      cbn [bind _events _numberOfEvents _events_storage].
      rewrite list_insert_insert_eq.
      erewrite store_Z; [|done|]; cycle 1.
      { cbn [_events]. by apply list_lookup_insert_eq. }
      cbn [bind _events _numberOfEvents _events_storage fst snd].
      by rewrite list_insert_insert_eq.
    + cbn [bind].
      erewrite store_Z; [|done|]; cycle 1.
      { cbn [_events]. by apply list_lookup_insert_eq. }
      cbn [bind _events _numberOfEvents _events_storage fst snd].
      by rewrite list_insert_insert_eq.
Qed.

(** With at most 127 slots the loop of [update] is then the pass
    [update_events] over the table. *)
Lemma update_loop_pass rest : forall visited fuel n st w,
  (length rest < fuel)%nat ->
  (length visited + length rest <= 127)%nat ->
  n = Z.of_nat (length visited + length rest) ->
  update_loop fuel (Z.of_nat (length visited))
    (mkTimer n (visited ++ rest) st, w)
  = Done (mkTimer n (visited ++ fst (update_events rest w)) st,
          snd (update_events rest w)).
Proof using scripts_quiet.
  induction rest as [|e rest IH]; intros visited fuel n st w Hfuel Hlen ->;
    (destruct fuel as [|fuel]; [cbn in Hfuel; lia|]);
    cbn [update_loop _numberOfEvents length] in *.
  - destruct (Z.ltb_spec (Z.of_nat (length visited))
                (Z.of_nat (length visited + 0))); [lia|done].
  - destruct (Z.ltb_spec (Z.of_nat (length visited))
                (Z.of_nat (length visited + S (length rest)))); [|lia].
    assert (load (mkTimer (Z.of_nat (length visited + S (length rest)))
                    (visited ++ e :: rest) st) (Z.of_nat (length visited))
            = Done e) as Hload.
    { rewrite load_nat. cbn [_events]. by rewrite list_lookup_middle. }
    rewrite Hload. cbn [bind update_events].
    rewrite to_int8_next by lia.
    destruct (negb (eventType e =? EVENT_NONE)).
    + rewrite (Event_update_at_quiet _ _ _ e Hload). cbn [bind].
      cbn [_numberOfEvents _events _events_storage]. rewrite Nat2Z.id.
      destruct (Event_update e w) as [e1 w1]. cbn [fst snd].
      replace (<[length visited:=e1]> (visited ++ e :: rest))
        with ((visited ++ [e1]) ++ rest).
      2:{ rewrite <- (Nat.add_0_r (length visited)), insert_app_r.
          by rewrite <- app_assoc. }
      replace (S (length visited)) with (length (visited ++ [e1]))
        by (rewrite length_app; cbn; lia).
      rewrite IH; [|lia|rewrite length_app; cbn; lia
                   |rewrite length_app; cbn; f_equal; lia].
      destruct (update_events rest w1) as [l1 w2]. cbn.
      by rewrite <- app_assoc.
    + replace (visited ++ e :: rest) with ((visited ++ [e]) ++ rest)
        by (by rewrite <- app_assoc).
      replace (S (length visited)) with (length (visited ++ [e]))
        by (rewrite length_app; cbn; lia).
      rewrite IH; [|lia|rewrite length_app; cbn; lia
                   |rewrite length_app; cbn; f_equal; lia].
      destruct (update_events rest w) as [l1 w2]. cbn.
      by rewrite <- !app_assoc.
Qed.

Lemma update_pass t w :
  wf t -> _numberOfEvents t <= 127 ->
  update (t, w)
  = Done (mkTimer (_numberOfEvents t) (fst (update_events (_events t) w))
                  (_events_storage t),
          snd (update_events (_events t) w)).
Proof using scripts_quiet.
  intros Hwf HN. destruct t as [n l st]. unfold wf in Hwf.
  cbn [_numberOfEvents _events _events_storage] in *.
  rewrite update_from_slot_0.
  change (Z.of_nat 0) with (Z.of_nat (length (@nil Event))).
  change l with ([] ++ l) at 1.
  rewrite update_loop_pass; [done| | |].
  - unfold INT8_VALUES. lia.
  - rewrite length_nil. lia.
  - rewrite length_nil. lia.
Qed.

End QuietCallbacks.

(** *** Elapsed time *)

(** Subtraction on [unsigned long] recovers the time that has passed even
    when the counter has wrapped in between. *)
Lemma elapsed_wraparound last d :
  0 <= d < ULONG_MODULUS -> elapsed (to_ulong (last + d)) last = d.
Proof.
  intros Hd. unfold elapsed, to_ulong.
  rewrite Zminus_mod_idemp_l.
  replace (last + d - last) with d by lia.
  by apply Z.mod_small.
Qed.

(** C7.  The dispatch of an occupied slot measures the time since the slot
    last fired as [now - lastEventTime] on [unsigned long], at the one
    reading [now] of the clock it takes.  When the time truly passed, [d],
    has reached the period of the slot, the measured time is [d] and the
    slot is found due, also when the counter has wrapped in between and
    [now] is less than [lastEventTime]; a slot with firings left then
    fires at that reading, in the dispatch and so in the pass of [update]
    that has reached it. *)
Theorem dispatch_detects_due_across_wraparound t w i e d fuel :
  load t i = Done e -> eventType e <> EVENT_NONE ->
  i < _numberOfEvents t ->
  0 <= d < ULONG_MODULUS -> period e <= d ->
  fst (millis w) = to_ulong (lastEventTime e + d) ->
  let now := fst (millis w) in
  let w1 := snd (millis w) in
  elapsed now (lastEventTime e) = d /\
  Event_due now e = true /\
  (0 <= lastEventTime e < ULONG_MODULUS ->
   ULONG_MODULUS <= lastEventTime e + d -> now < lastEventTime e) /\
  (repeatCount e <> 0 ->
   Event_update e w = Event_fire now e w1 /\
   Event_update_at i (t, w) = Event_fire_at i now (t, w1) /\
   update_loop (S fuel) i (t, w)
   = (do s1 <- Event_fire_at i now (t, w1) in
      update_loop fuel (to_int8 (i + 1)) s1)).
Proof.
  intros Hload Hocc Hi Hd Hdue Hnow now w1.
  assert (elapsed now (lastEventTime e) = d) as Hel.
  { unfold now. rewrite Hnow. by apply elapsed_wraparound. }
  assert (Event_due now e = true) as Hfound.
  { unfold Event_due. rewrite Hel.
    by destruct (Z.ltb_spec d (period e)); [lia|]. }
  split; [done|]. split; [done|]. split.
  { intros Hlast Hwrap. unfold now. rewrite Hnow. unfold to_ulong.
    replace (lastEventTime e + d)
      with (lastEventTime e + d - ULONG_MODULUS + 1 * ULONG_MODULUS) by lia.
    rewrite Z.mod_add by done. rewrite Z.mod_small; lia. }
  intros Hrc. apply Z.eqb_neq in Hrc.
  assert (Event_update_at i (t, w) = Event_fire_at i now (t, w1)) as Hat.
  { unfold Event_update_at. rewrite Hload. cbn [bind].
    unfold now, w1 in *. destruct (millis w) as [n0 w0]. cbn [fst snd] in *.
    by rewrite Hrc, Hfound. }
  split; [|split; [done|]].
  - unfold Event_update.
    unfold now, w1 in *. destruct (millis w) as [n0 w0]. cbn [fst snd] in *.
    by rewrite Hrc, Hfound.
  - cbn [update_loop].
    destruct (Z.ltb_spec i (_numberOfEvents t)); [|lia].
    rewrite Hload. cbn [bind].
    destruct (Z.eqb_spec (eventType e) EVENT_NONE); [done|]. cbn [negb].
    by rewrite Hat.
Qed.

(** *** Repeat counts after a pass *)

Lemma settled_S j t :
  settled j t -> (forall e, _events t !! j = Some e -> settled_slot e) ->
  settled (S j) t.
Proof.
  intros Hs Hj k e Hk He. destruct (decide (k = j)) as [->|Hne].
  - by apply Hj.
  - apply (Hs k); [lia|done].
Qed.

Lemma insert_settled k t i e :
  settled k t -> settled_slot e ->
  settled k (mkTimer (_numberOfEvents t) (<[i := e]> (_events t))
               (_events_storage t)).
Proof.
  intros Hs He j e' Hj Hl. cbn [_events] in Hl.
  apply list_lookup_insert_Some in Hl as [(_ & <- & _)|(_ & Hl)]; [done|].
  by apply (Hs j).
Qed.

(** A write that keeps settled slots settled. *)
Lemma store_settled k t i f t' :
  (forall e, settled_slot e -> settled_slot (f e)) ->
  settled k t -> store t i f = Done t' -> settled k t'.
Proof.
  intros Hf Hs (e & _ & He & ->)%store_cases j e' Hj Hl. cbn [_events] in Hl.
  apply list_lookup_insert_Some in Hl as [(<- & <- & _)|(_ & Hl)].
  - apply Hf. by apply (Hs (Z.to_nat i)).
  - by apply (Hs j).
Qed.

(** A write that settles slot [j]. *)
Lemma store_settles j t f t' :
  (forall e, _events t !! j = Some e -> settled_slot (f e)) ->
  settled j t -> store t (Z.of_nat j) f = Done t' -> settled (S j) t'.
Proof.
  intros Hf Hs (e & _ & He & ->)%store_cases. rewrite Nat2Z.id in *.
  apply settled_S.
  - apply insert_settled; [done|]. by apply Hf.
  - cbn [_events]. intros e' Hl.
    apply list_lookup_insert_Some in Hl as [(_ & <- & _)|(Hne & _)]; [|done].
    by apply Hf.
Qed.

Lemma register_settled k r t w i t' w' :
  stored_count r <> 0 -> settled k t ->
  register r (t, w) = Done (i, (t', w')) -> settled k t'.
Proof using NO_TIMER_AVAILABLE_range.
  intros Hrc Hs [->|(e & slot & _ & _ & Hslot & ->)]%register_cases; [done|].
  apply insert_settled; [done|]. right. by rewrite Hslot.
Qed.

Lemma stop_settled k id t r t' :
  settled k t -> stop id t = Done (r, t') -> settled k t'.
Proof.
  intros Hs [(_ & e & _ & _ & ->)|(_ & _ & ->)]%stop_cases; [|done].
  apply insert_settled; [done|]. by left.
Qed.

Lemma run_script_settled k acts : forall t w t' w',
  Forall registers_nonzero acts -> settled k t ->
  run_script acts (t, w) = Done (t', w') -> settled k t'.
Proof using NO_TIMER_AVAILABLE_range.
  induction acts as [|[r|id] acts IH]; intros t w t' w' Hacts Hs Hrun;
    cbn [run_script] in Hrun.
  - by injection Hrun as <- <-.
  - inversion Hacts as [|a l Ha Hl]; subst. bind_Done Hrun x Hx.
    destruct x as [i [t1 w1]].
    eapply IH; [done| |exact Hrun]. by eapply register_settled.
  - inversion Hacts as [|a l Ha Hl]; subst. bind_Done Hrun x Hx.
    destruct x as [i t1].
    eapply IH; [done| |exact Hrun]. by eapply stop_settled.
Qed.

Lemma Event_countdown_settled e :
  settled_slot e -> settled_slot (Event_countdown e).
Proof.
  intros [Hfree|Hrc]; [|by apply Event_countdown_nonzero].
  left. unfold Event_countdown.
  destruct (0 <? repeatCount e); [|done]. cbn.
  by destruct (repeatCount e - 1 =? 0).
Qed.

Section NoZeroCountRegistered.

(** No callback registers a timer with repeat count 0. *)
Hypothesis scripts_register_nonzero :
  forall cb ctx s, Forall registers_nonzero (callback_script cb ctx s).

Lemma Event_action_at_settled k i t w t' w' :
  settled k t -> Event_action_at i (t, w) = Done (t', w') -> settled k t'.
Proof using NO_TIMER_AVAILABLE_range scripts_register_nonzero.
  unfold Event_action_at. intros Hs H. bind_Done H e He.
  destruct (eventType e =? EVENT_EVERY).
  - bind_Done H x Hx. destruct x as [t1 w1]. bind_Done H t2 Ht2.
    injection H as <- <-.
    eapply store_settled; [|
      |exact Ht2]; [by intros e0 [?|?]; [left|right]|].
    destruct (callback e =? 0); [by injection Hx as <- <-|].
    eapply run_script_settled; [apply scripts_register_nonzero|done|exact Hx].
  - destruct (eventType e =? EVENT_OSCILLATE).
    + bind_Done H t1 Ht1. injection H as <- <-.
      eapply store_settled; [|done|exact Ht1].
      by intros e0 [?|?]; [left|right].
    + by injection H as <- <-.
Qed.

(** The dispatch of slot [j] settles it and keeps the slots below it
    settled. *)
Lemma Event_update_at_settled j t w t' w' :
  settled j t -> Event_update_at (Z.of_nat j) (t, w) = Done (t', w') ->
  settled (S j) t'.
Proof using NO_TIMER_AVAILABLE_range scripts_register_nonzero.
  unfold Event_update_at. intros Hs H. bind_Done H e He.
  apply load_Done in He as [_ He]. rewrite Nat2Z.id in He.
  destruct (millis w) as [now w1].
  destruct (Z.eqb_spec (repeatCount e) 0) as [Hzero|Hrc].
  - bind_Done H t1 Ht1. injection H as <- <-.
    eapply store_settles; [|done|exact Ht1]. intros e0 _. by left.
  - destruct (Event_due now e).
    + unfold Event_fire_at in H. bind_Done H t1 Ht1.
      bind_Done H x Hx. destruct x as [t2 w2]. bind_Done H t3 Ht3.
      injection H as <- <-.
      eapply store_settled; [apply Event_countdown_settled| |exact Ht3].
      eapply Event_action_at_settled; [|exact Hx].
      eapply store_settles; [|done|exact Ht1].
      intros e0 He0. right. cbn. congruence.
    + injection H as <- <-. apply settled_S; [done|].
      intros e0 He0. right. congruence.
Qed.

Lemma update_loop_settled d : forall fuel t w j t' w',
  (j + d)%nat = length (_events t) -> wf t -> _numberOfEvents t <= 127 ->
  settled j t ->
  update_loop fuel (Z.of_nat j) (t, w) = Done (t', w') ->
  settled (length (_events t')) t'.
Proof using NO_TIMER_AVAILABLE_range scripts_register_nonzero.
  induction d as [|d IH]; intros fuel t w j t' w' Hj Hwf HN Hs Hrun;
    (destruct fuel as [|fuel]; [done|]); cbn [update_loop] in Hrun;
    pose proof Hwf as Hlen; unfold wf in Hlen.
  - destruct (Z.ltb_spec (Z.of_nat j) (_numberOfEvents t)); [lia|].
    injection Hrun as <- <-. by replace (length (_events t)) with j by lia.
  - destruct (Z.ltb_spec (Z.of_nat j) (_numberOfEvents t)); [|lia].
    bind_Done Hrun e He. rewrite to_int8_next in Hrun by lia.
    destruct (Z.eqb_spec (eventType e) EVENT_NONE) as [Hfree|Hocc];
      cbn [negb] in Hrun.
    + eapply IH; cycle 4; [exact Hrun|lia|done|done|].
      apply settled_S; [done|]. intros e0 He0. left.
      apply load_Done in He as [_ He]. rewrite Nat2Z.id in He. congruence.
    + bind_Done Hrun s1 Hslot. destruct s1 as [t1 w1].
      pose proof (Event_update_at_frame _ _ _ _ _ Hslot) as Hframe.
      pose proof (same_frame_wf _ _ Hframe Hwf) as Hwf1.
      destruct Hframe as (HN1 & _ & Hlen1).
      eapply IH; cycle 4; [exact Hrun|lia|done|lia|].
      by eapply Event_update_at_settled.
Qed.

(** After a completed pass every slot is free or has firings left. *)
Lemma update_settled t w t' w' :
  wf t -> update (t, w) = Done (t', w') ->
  settled (length (_events t')) t'.
Proof using NO_TIMER_AVAILABLE_range scripts_register_nonzero.
  intros Hwf Hrun. rewrite update_from_slot_0 in Hrun.
  destruct (Z.le_gt_cases 128 (_numberOfEvents t)) as [Hbig|Hsmall].
  { rewrite (update_loop_overflow 127 INT8_VALUES t w 0%nat) in Hrun;
      [done|unfold INT8_VALUES; lia|lia|done|done]. }
  assert (settled 0 t) as Hs by (intros j e Hj; lia).
  pose proof (update_loop_settled (length (_events t)) INT8_VALUES t w 0%nat
                t' w' eq_refl Hwf) as Hpass.
  apply Hpass; [lia|exact Hs|exact Hrun].
Qed.

End NoZeroCountRegistered.

(** C8, as the code has it.  After every completed pass of [update] during
    which no callback registers a timer with repeat count 0, no occupied
    slot has repeat count 0.  A slot whose count is decremented to 0 is
    retired by that same countdown, and the dispatch of a slot found with
    count 0 retires it without firing: it reads the clock, writes no pin
    and calls no callback, and only the kind of that slot changes. *)
Theorem update_leaves_no_zero_count_slot t w t' w' :
  wf t ->
  (forall cb ctx s, Forall registers_nonzero (callback_script cb ctx s)) ->
  update (t, w) = Done (t', w') ->
  (forall j e', _events t' !! j = Some e' ->
     eventType e' <> EVENT_NONE -> repeatCount e' <> 0) /\
  (forall e, repeatCount e = 1 ->
     repeatCount (Event_countdown e) = 0 /\
     eventType (Event_countdown e) = EVENT_NONE) /\
  (forall i t0 w0 e, load t0 i = Done e -> repeatCount e = 0 ->
     Event_update_at i (t0, w0)
     = Done (mkTimer (_numberOfEvents t0)
               (<[Z.to_nat i := set_eventType EVENT_NONE e]> (_events t0))
               (_events_storage t0), snd (millis w0)) /\
     eventType (set_eventType EVENT_NONE e) = EVENT_NONE /\
     trace (snd (millis w0)) = trace w0).
Proof using NO_TIMER_AVAILABLE_range.
  intros Hwf Hscripts Hrun. split; [|split].
  - intros j e' He' Hocc.
    destruct (update_settled Hscripts t w t' w' Hwf Hrun j e') as [Hfree|Hrc];
      [by eapply lookup_lt_Some|done|done|done].
  - intros e Hrc. unfold Event_countdown. rewrite Hrc. done.
  - intros i t0 w0 e Hload Hrc. split; [|done].
    unfold Event_update_at. rewrite Hload. cbn [bind].
    destruct (millis w0) as [now w1]. rewrite Hrc. cbn [Z.eqb snd].
    apply load_Done in Hload as [H0 He].
    by erewrite store_Z by done.
Qed.

(** *** The free slots in a pass *)

Lemma keeps_free_refl t : keeps_free t t.
Proof. by intros j e He _. Qed.

Lemma keeps_free_trans t1 t2 t3 :
  keeps_free t1 t2 -> keeps_free t2 t3 -> keeps_free t1 t3.
Proof. intros H12 H23 j e He Hfree. apply H23; [|done]. by apply H12. Qed.

Lemma keeps_free_but_trans i t1 t2 t3 :
  keeps_free_but i t1 t2 -> keeps_free_but i t2 t3 -> keeps_free_but i t1 t3.
Proof.
  intros H12 H23 j e Hj He Hfree. apply H23; [done| |done]. by apply H12.
Qed.

Lemma keeps_free_weaken i t t' : keeps_free t t' -> keeps_free_but i t t'.
Proof. intros H j e _. apply H. Qed.

(** A pass over a slot that is occupied keeps all free slots if it keeps
    the others. *)
Lemma keeps_free_occupied i t t' e :
  _events t !! i = Some e -> eventType e <> EVENT_NONE ->
  keeps_free_but i t t' -> keeps_free t t'.
Proof.
  intros He Hocc H j e' He' Hfree. apply H; [|done..].
  intros ->. congruence.
Qed.

Lemma set_eventType_free e :
  eventType e = EVENT_NONE -> set_eventType EVENT_NONE e = e.
Proof. destruct e. cbn. by intros ->. Qed.

Lemma store_keeps_others t i f t' :
  store t i f = Done t' -> keeps_free_but (Z.to_nat i) t t'.
Proof.
  intros (e & _ & _ & ->)%store_cases j e' Hj He' _. cbn [_events].
  by rewrite list_lookup_insert_ne.
Qed.

(** On a table as long as it says, a write inside the table is defined. *)
Lemma store_total t i f :
  wf t -> 0 <= i < _numberOfEvents t -> exists t', store t i f = Done t'.
Proof.
  intros Hwf Hi. destruct (wf_lookup t (Z.to_nat i) Hwf) as [e He]; [lia|].
  eexists. apply store_Z; [lia|exact He].
Qed.

(** [stop] is defined on every id, and a free slot is as it was. *)
Lemma stop_keeps_free id t :
  wf t ->
  exists r t', stop id t = Done (r, t') /\ same_frame t t' /\ keeps_free t t'.
Proof.
  intros Hwf.
  destruct (decide (0 <= to_int8 id < _numberOfEvents t)) as [Hin|Hout].
  - destruct (wf_lookup t (Z.to_nat (to_int8 id)) Hwf) as [e He]; [lia|].
    eexists _, _. split; [by apply stop_in_table|].
    split. { unfold same_frame. cbn. by rewrite length_insert. }
    intros j e' He' Hfree. cbn [_events].
    destruct (decide (j = Z.to_nat (to_int8 id))) as [->|Hne].
    + assert (e' = e) as -> by congruence.
      rewrite set_eventType_free by done.
      apply list_lookup_insert_eq. by eapply lookup_lt_Some.
    + by rewrite list_lookup_insert_ne.
  - eexists _, _. split; [by apply stop_outside|].
    split; [apply same_frame_refl|apply keeps_free_refl].
Qed.

Lemma run_script_stops acts : forall t w,
  wf t -> Forall only_stops acts ->
  exists t', run_script acts (t, w) = Done (t', w) /\
    same_frame t t' /\ keeps_free t t'.
Proof.
  induction acts as [|[r|id] acts IH]; intros t w Hwf Hacts;
    cbn [run_script].
  - exists t. split; [done|].
    split; [apply same_frame_refl|apply keeps_free_refl].
  - by inversion Hacts as [|a l Ha Hl].
  - inversion Hacts as [|a l Ha Hl]; subst.
    destruct (stop_keeps_free id t Hwf) as (r & t1 & -> & Hframe1 & Hfree1).
    cbn [bind].
    destruct (IH t1 w (same_frame_wf _ _ Hframe1 Hwf) Hl)
      as (t' & -> & Hframe2 & Hfree2).
    exists t'. split; [done|].
    split; [by eapply same_frame_trans|by eapply keeps_free_trans].
Qed.

Section CallbacksOnlyStop.

(** No callback registers a timer. *)
Hypothesis scripts_only_stop :
  forall cb ctx s, Forall only_stops (callback_script cb ctx s).

Lemma Event_action_at_stops i t w :
  wf t -> 0 <= i < _numberOfEvents t ->
  exists t' w', Event_action_at i (t, w) = Done (t', w') /\
    same_frame t t' /\ keeps_free_but (Z.to_nat i) t t'.
Proof using scripts_only_stop.
  intros Hwf Hi. unfold Event_action_at.
  destruct (wf_lookup t (Z.to_nat i) Hwf) as [e He]; [lia|].
  unfold load. destruct (Z.leb_spec 0 i); [|lia]. rewrite He. cbn [bind].
  destruct (eventType e =? EVENT_EVERY).
  - assert (exists t1 w1,
              (if callback e =? 0 then Done (t, w)
               else run_callback (callback e) (context e) (t, w))
              = Done (t1, w1) /\ same_frame t t1 /\ keeps_free t t1)
      as (t1 & w1 & -> & Hframe1 & Hfree1).
    { destruct (callback e =? 0).
      { eexists _, _. split; [done|].
        split; [apply same_frame_refl|apply keeps_free_refl]. }
      unfold run_callback.
      destruct (run_script_stops
                  (callback_script (callback e) (context e)
                     (t, invoke (callback e) (context e) w))
                  t (invoke (callback e) (context e) w) Hwf
                  (scripts_only_stop _ _ _)) as (t1 & -> & ? & ?).
      by eexists _, _. }
    cbn [bind].
    destruct (store_total t1 i
                (fun e' => set_count (count_succ (count e')) e'))
      as [t2 Ht2]; [by eapply same_frame_wf|by destruct Hframe1 as (-> & _)|].
    rewrite Ht2. cbn [bind]. eexists _, _. split; [done|].
    split; [eapply same_frame_trans; [done|by eapply store_frame]|].
    eapply keeps_free_but_trans; [by apply keeps_free_weaken|].
    by eapply store_keeps_others.
  - destruct (eventType e =? EVENT_OSCILLATE); cycle 1.
    { eexists _, _. split; [done|].
      split; [apply same_frame_refl|]. by intros j e' _. }
    destruct (store_total t i
                (fun e' => set_count (count_succ (count e'))
                             (set_pinState (toggle (pinState e)) e')))
      as [t1 Ht1]; [done..|].
    cbv zeta. rewrite Ht1. cbn [bind]. eexists _, _. split; [done|].
    split; [by eapply store_frame|by eapply store_keeps_others].
Qed.

Lemma Event_fire_at_stops i now t w :
  wf t -> 0 <= i < _numberOfEvents t ->
  exists t' w', Event_fire_at i now (t, w) = Done (t', w') /\
    same_frame t t' /\ keeps_free_but (Z.to_nat i) t t'.
Proof using scripts_only_stop.
  intros Hwf Hi. unfold Event_fire_at.
  destruct (store_total t i (set_lastEventTime now)) as [t1 Ht1]; [done..|].
  rewrite Ht1. cbn [bind].
  pose proof (store_frame _ _ _ _ Ht1) as Hframe1.
  destruct (Event_action_at_stops i t1 w) as (t2 & w2 & -> & Hframe2 & Hfree2);
    [by eapply same_frame_wf|by destruct Hframe1 as (-> & _)|].
  cbn [bind].
  pose proof (same_frame_trans _ _ _ Hframe1 Hframe2) as Hframe12.
  destruct (store_total t2 i Event_countdown) as [t3 Ht3];
    [by eapply same_frame_wf|by destruct Hframe12 as (-> & _)|].
  rewrite Ht3. cbn [bind]. eexists _, _. split; [done|].
  split; [eapply same_frame_trans; [done|by eapply store_frame]|].
  eapply keeps_free_but_trans; [by eapply store_keeps_others|].
  eapply keeps_free_but_trans; [done|by eapply store_keeps_others].
Qed.

Lemma Event_update_at_stops i t w :
  wf t -> 0 <= i < _numberOfEvents t ->
  exists t' w', Event_update_at i (t, w) = Done (t', w') /\
    same_frame t t' /\ keeps_free_but (Z.to_nat i) t t'.
Proof using scripts_only_stop.
  intros Hwf Hi. unfold Event_update_at.
  destruct (wf_lookup t (Z.to_nat i) Hwf) as [e He]; [lia|].
  unfold load. destruct (Z.leb_spec 0 i); [|lia]. rewrite He. cbn [bind].
  destruct (millis w) as [now w1]. destruct (repeatCount e =? 0).
  - destruct (store_total t i (set_eventType EVENT_NONE)) as [t1 Ht1];
      [done..|].
    rewrite Ht1. cbn [bind]. eexists _, _. split; [done|].
    split; [by eapply store_frame|by eapply store_keeps_others].
  - destruct (Event_due now e).
    + by apply Event_fire_at_stops.
    + eexists _, _. split; [done|].
      split; [apply same_frame_refl|]. by intros j e' _.
Qed.

(** On a table of at most 127 slots the pass completes, and the slots
    that are free stay as they are. *)
Lemma update_loop_stops d : forall fuel t w j,
  (d < fuel)%nat -> (j + d)%nat = length (_events t) ->
  wf t -> _numberOfEvents t <= 127 ->
  exists t' w', update_loop fuel (Z.of_nat j) (t, w) = Done (t', w') /\
    same_frame t t' /\ keeps_free t t'.
Proof using scripts_only_stop.
  induction d as [|d IH]; intros fuel t w j Hfuel Hj Hwf HN;
    (destruct fuel as [|fuel]; [lia|]); cbn [update_loop];
    pose proof Hwf as Hlen; unfold wf in Hlen.
  - destruct (Z.ltb_spec (Z.of_nat j) (_numberOfEvents t)); [lia|].
    eexists _, _. split; [done|].
    split; [apply same_frame_refl|apply keeps_free_refl].
  - destruct (Z.ltb_spec (Z.of_nat j) (_numberOfEvents t)); [|lia].
    destruct (wf_lookup t j Hwf) as [e He]; [lia|].
    rewrite load_nat, He. cbn [bind]. rewrite to_int8_next by lia.
    destruct (Z.eqb_spec (eventType e) EVENT_NONE) as [Hfree|Hocc];
      cbn [negb].
    + apply IH; [lia|lia|done|done].
    + destruct (Event_update_at_stops (Z.of_nat j) t w)
        as (t1 & w1 & -> & Hframe1 & Hfree1); [done|lia|].
      cbn [bind]. rewrite Nat2Z.id in Hfree1.
      pose proof (same_frame_wf _ _ Hframe1 Hwf) as Hwf1.
      destruct (IH fuel t1 w1 (S j)) as (t' & w' & -> & Hframe2 & Hfree2);
        [lia|destruct Hframe1 as (_ & _ & ->); lia|done
        |destruct Hframe1 as (-> & _); lia|].
      eexists _, _. split; [done|].
      split; [by eapply same_frame_trans|].
      eapply keeps_free_trans; [|done]. by eapply keeps_free_occupied.
Qed.

End CallbacksOnlyStop.

(** A pass over a table without occupied slot does nothing. *)
Lemma update_loop_all_free d : forall fuel t w j,
  (d < fuel)%nat -> (j + d)%nat = length (_events t) ->
  wf t -> _numberOfEvents t <= 127 ->
  (forall i e, _events t !! i = Some e -> eventType e = EVENT_NONE) ->
  update_loop fuel (Z.of_nat j) (t, w) = Done (t, w).
Proof.
  induction d as [|d IH]; intros fuel t w j Hfuel Hj Hwf HN Hall;
    (destruct fuel as [|fuel]; [lia|]); cbn [update_loop];
    pose proof Hwf as Hlen; unfold wf in Hlen.
  - by destruct (Z.ltb_spec (Z.of_nat j) (_numberOfEvents t)); [lia|].
  - destruct (Z.ltb_spec (Z.of_nat j) (_numberOfEvents t)); [|lia].
    destruct (wf_lookup t j Hwf) as [e He]; [lia|].
    rewrite load_nat, He. cbn [bind]. rewrite to_int8_next by lia.
    rewrite (Hall j e He). cbn [Z.eqb negb].
    apply IH; [lia|lia|done|done|done].
Qed.

(** X10.  On a table of at most 127 slots a pass of [update] whose
    callbacks register no timer completes and keeps capacity, storage and
    the number of slots.  It passes over the free slots: each is
    afterwards exactly as it was.  On a table without occupied slot the
    pass changes nothing at all, not even reading the clock, whatever the
    callbacks would do. *)
Theorem update_passes_over_free_slots t w :
  wf t -> _numberOfEvents t <= 127 ->
  ((forall cb ctx s, Forall only_stops (callback_script cb ctx s)) ->
   exists t' w',
     update (t, w) = Done (t', w') /\
     _numberOfEvents t' = _numberOfEvents t /\
     _events_storage t' = _events_storage t /\
     length (_events t') = length (_events t) /\
     (forall i e, _events t !! i = Some e -> eventType e = EVENT_NONE ->
        _events t' !! i = Some e)) /\
  ((forall i e, _events t !! i = Some e -> eventType e = EVENT_NONE) ->
   update (t, w) = Done (t, w)).
Proof.
  intros Hwf HN. rewrite update_from_slot_0. split.
  - intros Hscripts.
    destruct (update_loop_stops Hscripts (length (_events t)) INT8_VALUES
                t w 0%nat) as (t' & w' & Hrun & (HN' & Hst & Hlen) & Hfree);
      [unfold wf, INT8_VALUES in *; lia|done|done|done|].
    by exists t', w'.
  - intros Hall. apply (update_loop_all_free (length (_events t)));
      [unfold wf, INT8_VALUES in *; lia|done|done|done|done].
Qed.

(** *** stop, then update *)

(** X15.  A stopped slot does not fire: on a table of at most 127 slots the
    pass of [update] that follows [stop(id)], if its callbacks register no
    timer, completes and leaves slot [id] free, with every field as
    [stop] left it. *)
Theorem stopped_slot_is_passed_over t id r0 t1 w :
  wf t -> _numberOfEvents t <= 127 -> 0 <= id < _numberOfEvents t ->
  (forall cb ctx s, Forall only_stops (callback_script cb ctx s)) ->
  stop id t = Done (r0, t1) ->
  exists t2 w2 e,
    update (t1, w) = Done (t2, w2) /\
    _events t1 !! Z.to_nat id = Some e /\ eventType e = EVENT_NONE /\
    _events t2 !! Z.to_nat id = Some e.
Proof.
  intros Hwf HN Hin Hscripts Hstop. rewrite update_from_slot_0.
  pose proof (stop_frame _ _ _ _ Hstop) as Hframe.
  pose proof (same_frame_wf _ _ Hframe Hwf) as Hwf1.
  apply stop_cases in Hstop. rewrite (to_int8_id id) in Hstop by lia.
  destruct Hstop as [(_ & e & He & _ & Ht1)|(Hout & _)]; [|done].
  assert (_events t1 !! Z.to_nat id = Some (set_eventType EVENT_NONE e))
    as He1.
  { rewrite Ht1. cbn [_events]. apply list_lookup_insert_eq.
    by eapply lookup_lt_Some. }
  destruct Hframe as (HN1 & _ & Hlen1).
  destruct (update_loop_stops Hscripts (length (_events t1)) INT8_VALUES
              t1 w 0%nat) as (t2 & w2 & Hrun & _ & Hfree);
    [unfold wf, INT8_VALUES in *; lia|done|done|lia|].
  exists t2, w2, (set_eventType EVENT_NONE e).
  split; [done|]. split; [done|]. split; [done|]. by apply Hfree.
Qed.

End TimerCpp.

(** ** The results at work

    The macros as the Timer library ships them: [EVENT_EVERY] 1,
    [EVENT_OSCILLATE] 2, [NO_TIMER_AVAILABLE] -1, [TIMER_NOT_AN_EVENT] -2,
    ten events by default, on a board with a 16-bit [int]. *)

(** A table of 128 slots filled by 128 calls of [every]: the ids are
    0 .. 127 and a further [pulse] has no defined result. *)
Lemma capacity_128_witness :
  exists ids s',
    register_all 1 2 (-1) 16 (replicate 128 (REvery 1000 7 (-1) 0))
      (Timer_byte 128 (board_at 0)) = Done (ids, s') /\
    ids = Z.of_nat <$> seq 0 128 /\
    register 1 2 (-1) 16 (RPulse 13 500 1) s' = Undefined.
Proof.
  eexists _, _. split; [vm_compute; reflexivity|].
  eapply (capacity_128_next_registration_undefined 1 2 (-1) 16)
    with (w := board_at 0) (rs := replicate 128 (REvery 1000 7 (-1) 0));
    first [lia | by vm_compute | vm_compute; reflexivity].
Defined.

(** C2 fails as stated: on a table of 200 slots, [stop(150)] receives its
    argument as the [int8_t] -106; it returns -106 and retires nothing. *)
Lemma stop_150_of_200_retires_nothing :
  wf (mkTimer 200 (replicate 200 busy_slot) StaticArray) /\
  0 <= 150
    < _numberOfEvents (mkTimer 200 (replicate 200 busy_slot) StaticArray) /\
  stop (-2) 150 (mkTimer 200 (replicate 200 busy_slot) StaticArray)
  = Done (-106, mkTimer 200 (replicate 200 busy_slot) StaticArray) /\
  -106 <> -2 /\
  _events (mkTimer 200 (replicate 200 busy_slot) StaticArray) !! 150%nat
  = Some busy_slot /\
  eventType busy_slot <> EVENT_NONE.
Proof.
  split; [reflexivity|]. split; [cbn; lia|].
  split; [vm_compute; reflexivity|]. split; [lia|].
  split; [reflexivity|by vm_compute].
Qed.

(** [stop(0)] on the table of three slots retires the periodic slot 0. *)
Lemma stop_witness :
  wf table_with_gap /\
  0 <= to_int8 0 < _numberOfEvents table_with_gap /\
  exists e e1 t1,
    _events table_with_gap !! 0%nat = Some e /\
    eventType e <> EVENT_NONE /\
    stop (-2) 0 table_with_gap = Done (-2, t1) /\
    _events t1 !! 0%nat = Some e1 /\
    eventType e1 = EVENT_NONE.
Proof.
  split; [reflexivity|]. split; [by vm_compute|].
  destruct (stop_retires_slot_of_int8_id (-1) (-2) ltac:(lia) ltac:(lia)
              table_with_gap 0 ltac:(reflexivity))
    as (_ & Hinside & _ & _).
  destruct (Hinside ltac:(by vm_compute))
    as (e & e1 & t1 & He & Hstop & He1 & Hkind & _).
  exists e, e1, t1. split; [exact He|]. split; [|by repeat split].
  vm_compute in He. injection He as <-. by vm_compute.
Defined.

(** [oscillate(13, 500, 1, 3)] on a fresh table of two slots. *)
Lemma oscillate_witness :
  exists t' w',
    oscillate 2 (-1) 16 13 500 1 3 (Timer_byte 2 (board_at 0))
    = Done (0, (t', w')) /\
    0 <> -1 /\
    trace w' = trace (snd (Timer_byte 2 (board_at 0))) ++ [DigitalWrite 13 1].
Proof.
  eexists _, _. split; [vm_compute; reflexivity|]. split; [lia|].
  eapply proj1.
  eapply (oscillate_stores_doubled_count 2 (-1) 16)
    with (t := fst (Timer_byte 2 (board_at 0)))
         (w := snd (Timer_byte 2 (board_at 0))) (i := 0)
         (p := 500) (rc := 3);
    first [lia | vm_compute; reflexivity].
Defined.

(** [pulseImmediate(13, 500, 1)] on a fresh table of two slots. *)
Lemma pulseImmediate_witness :
  exists t' w',
    pulseImmediate 2 (-1) 16 13 500 1 (Timer_byte 2 (board_at 0))
    = Done (0, (t', w')) /\
    0 <> -1 /\
    trace w' = trace (snd (Timer_byte 2 (board_at 0))) ++ [DigitalWrite 13 1].
Proof.
  eexists _, _. split; [vm_compute; reflexivity|]. split; [lia|].
  eapply proj1.
  eapply (pulseImmediate_fires_once 1 2 (-1) 16)
    with (t := fst (Timer_byte 2 (board_at 0)))
         (w := snd (Timer_byte 2 (board_at 0))) (i := 0) (p := 500);
    first [lia | vm_compute; reflexivity].
Defined.

(** A slot of period 25 that last fired 10 ms before the counter wrapped,
    dispatched when the counter reads 20: 30 ms have passed, the slot is
    found due and its callback is called. *)
Lemma wraparound_witness :
  fst (millis (board_at 20)) = 20 /\
  elapsed 20 (2 ^ 32 - 10) = 30 /\
  Event_due 20 (mkEvent 1 25 (-1) 0 0 7 (2 ^ 32 - 10) 0 0) = true /\
  20 < 2 ^ 32 - 10 /\
  exists t' w',
    update 1 2 (-1) (-2) 16 no_calls
      (mkTimer 1 [mkEvent 1 25 (-1) 0 0 7 (2 ^ 32 - 10) 0 0] StaticArray,
       board_at 20) = Done (t', w') /\
    trace w' = [Invoke 7 0].
Proof.
  destruct (dispatch_detects_due_across_wraparound 1 2 (-1) (-2) 16 no_calls
              (mkTimer 1 [mkEvent 1 25 (-1) 0 0 7 (2 ^ 32 - 10) 0 0]
                 StaticArray)
              (board_at 20) 0
              (mkEvent 1 25 (-1) 0 0 7 (2 ^ 32 - 10) 0 0) 30 255%nat)
    as (Hel & Hdue & Hwrapped & Hfires).
  - reflexivity.
  - by vm_compute.
  - by vm_compute.
  - by vm_compute.
  - by vm_compute.
  - by vm_compute.
  - split; [reflexivity|]. split; [exact Hel|]. split; [exact Hdue|].
    split; [apply Hwrapped; by vm_compute|].
    destruct (Hfires ltac:(by vm_compute)) as (_ & _ & Hloop).
    eexists _, _.
    split; [etransitivity; [exact Hloop|]; vm_compute; reflexivity|].
    reflexivity.
Defined.

(** C8 fails as stated: slot 0 is free and the callback of the periodic
    slot 1, which is due, calls [every(1000, cb, 0, ctx)].  The pass has
    gone by slot 0 when the registration claims it, and completes with
    slot 0 occupied and its repeat count 0. *)
Lemma registration_in_callback_leaves_zero_count :
  exists t' w' e,
    update 1 2 (-1) (-2) 16
      (callback_7_calls [CallRegister (REvery 1000 9 0 0)])
      (mkTimer 2 [memset_Event; mkEvent 1 25 (-1) 0 0 7 0 0 0] StaticArray,
       board_at 30) = Done (t', w') /\
    trace w' = [Invoke 7 0] /\
    _events t' !! 0%nat = Some e /\
    eventType e <> EVENT_NONE /\ repeatCount e = 0.
Proof.
  eexists _, _, _. split; [vm_compute; reflexivity|].
  split; [reflexivity|]. split; [reflexivity|]. by vm_compute.
Qed.

(** The same pass with a callback that calls [after(50, cb, ctx)]: slot 1,
    on its last firing, is retired and slot 0 holds the new timer with
    count 1. *)
Lemma zero_count_witness :
  wf (mkTimer 2 [memset_Event; mkEvent 1 25 1 0 0 7 0 0 0] StaticArray) /\
  exists t' w',
    update 1 2 (-1) (-2) 16 (callback_7_calls [CallRegister (RAfter 50 9 0)])
      (mkTimer 2 [memset_Event; mkEvent 1 25 1 0 0 7 0 0 0] StaticArray,
       board_at 30) = Done (t', w') /\
    trace w' = [Invoke 7 0] /\
    eventType <$> _events t' = [1; 0] /\
    forall j e', _events t' !! j = Some e' ->
      eventType e' <> EVENT_NONE -> repeatCount e' <> 0.
Proof.
  split; [reflexivity|]. eexists _, _.
  split; [vm_compute; reflexivity|].
  match goal with |- trace ?w1 = _ /\ _ =>
    match goal with |- _ /\ fmap _ (_events ?t1) = _ /\ _ =>
      destruct (update_leaves_no_zero_count_slot 1 2 (-1) (-2) 16
                  (callback_7_calls [CallRegister (RAfter 50 9 0)])
                  ltac:(lia)
                  (mkTimer 2 [memset_Event; mkEvent 1 25 1 0 0 7 0 0 0]
                     StaticArray)
                  (board_at 30) t1 w1) as (Hpass & _)
    end
  end.
  - reflexivity.
  - intros cb ctx s. unfold callback_7_calls.
    destruct (cb =? 7); repeat constructor. by vm_compute.
  - vm_compute; reflexivity.
  - split; [reflexivity|]. split; [reflexivity|]. exact Hpass.
Defined.

(** A table of 128 occupied slots. *)
Lemma full_table_witness :
  wf (mkTimer 128 (replicate 128 (mkEvent 1 1000 (-1) 0 0 7 0 0 0))
        StaticArray) /\
  every 1 (-1) 1000 7 (-1) 0
    (mkTimer 128 (replicate 128 (mkEvent 1 1000 (-1) 0 0 7 0 0 0))
       StaticArray, board_at 0) = Undefined.
Proof.
  split; [reflexivity|].
  destruct (full_table_of_128_registration_undefined 1 2 (-1) 16
              (mkTimer 128 (replicate 128 (mkEvent 1 1000 (-1) 0 0 7 0 0 0))
                 StaticArray)
              (board_at 0)) as [Hevery _].
  - reflexivity.
  - intros j e [-> _]%lookup_replicate. by vm_compute.
  - cbn [_numberOfEvents]. lia.
  - exact (Hevery 1000 7 (-1) 0).
Defined.

(** ** The further properties at work *)

Lemma scan_meaning_witness :
  findFreeEventIndex (-1) table_with_gap = Done 1 /\ 1 <> -1 /\
  occupied table_with_gap 0.
Proof.
  split; [by vm_compute|]. split; [lia|].
  destruct (findFreeEventIndex_result_meaning (-1) ltac:(lia) table_with_gap 1
              ltac:(by vm_compute)) as [Hfound _].
  destruct (Hfound ltac:(lia)) as (k & e & Hk & _ & _ & _ & _ & Hbelow).
  apply Hbelow. lia.
Defined.

Lemma scan_finds_witness :
  wf table_with_gap /\ (1 <= 127)%nat /\
  exists i : nat,
    findFreeEventIndex (-1) table_with_gap = Done (Z.of_nat i) /\ (i <= 1)%nat.
Proof.
  split; [reflexivity|]. split; [lia|].
  destruct (findFreeEventIndex_finds_free_slot (-1) table_with_gap
              1%nat memset_Event ltac:(reflexivity) ltac:(lia)
              ltac:(reflexivity) ltac:(reflexivity))
    as (i & e' & Hscan & Hi & _).
  by exists i.
Defined.

Lemma every_witness :
  exists t' w',
    every 1 (-1) 250 7 3 0 (table_with_gap, board_at 5) = Done (1, (t', w')) /\
    1 <> -1 /\ trace w' = trace (board_at 5).
Proof.
  eexists _, _. split; [vm_compute; reflexivity|]. split; [lia|].
  match goal with |- trace ?w1 = _ =>
    destruct (every_claims_lowest_free_slot 1 (-1) ltac:(lia) 250 7 3 0
                table_with_gap (board_at 5) 1 _ w1
                ltac:(vm_compute; reflexivity) ltac:(lia))
      as (_ & _ & _ & Htrace & _)
  end.
  exact Htrace.
Defined.

Lemma sentinel_witness :
  exists s',
    register 1 2 (-1) 16 (RPulse 13 500 1) (table_of_two, board_at 0)
    = Done (-1, s') /\
    s' = (table_of_two, board_at 0).
Proof.
  eexists. split; [vm_compute; reflexivity|].
  destruct (registration_returns_scan_result 1 2 (-1) 16 ltac:(lia)
              (RPulse 13 500 1) table_of_two (board_at 0) (-1) _
              ltac:(vm_compute; reflexivity)) as [_ Hsame].
  exact (Hsame eq_refl).
Defined.

Lemma other_slots_witness :
  exists t' w',
    register 1 2 (-1) 16 (ROscillate 13 500 1 3) (table_with_gap, board_at 0)
    = Done (1, (t', w')) /\
    _events t' !! 2%nat = _events table_with_gap !! 2%nat.
Proof.
  eexists _, _. split; [vm_compute; reflexivity|].
  match goal with |- _events ?t1 !! _ = _ =>
    destruct (registration_keeps_other_slots 1 2 (-1) 16 ltac:(lia)
                ltac:(by vm_compute) ltac:(by vm_compute)
                (ROscillate 13 500 1 3) table_with_gap (board_at 0) 1 t1 _
                ltac:(vm_compute; reflexivity))
      as (_ & _ & _ & Hothers & _)
  end.
  apply Hothers. lia.
Defined.

Lemma default_timer_witness :
  exists ids s',
    register_all 1 2 (-1) 16 (replicate 10 (REvery 1000 7 (-1) 0))
      (Timer_void 10 (board_at 0)) = Done (ids, s') /\
    register 1 2 (-1) 16 (RAfter 50 7 0) s' = Done (-1, s').
Proof.
  eexists _, _. split; [vm_compute; reflexivity|].
  match goal with |- register _ _ _ _ _ ?s1 = _ =>
    destruct (default_timer_registrations 1 2 (-1) 10 16 ltac:(lia)
                ltac:(lia) ltac:(by vm_compute) ltac:(by vm_compute)
                (board_at 0) (replicate 10 (REvery 1000 7 (-1) 0)) _ s1
                ltac:(lia) ltac:(by vm_compute)
                ltac:(vm_compute; reflexivity))
      as (_ & _ & Hfull)
  end.
  apply Hfull. by vm_compute.
Defined.

Lemma full_table_refuses_witness :
  wf table_of_two /\
  oscillate 2 (-1) 16 13 500 1 30000 (table_of_two, board_at 0)
  = Done (-1, (table_of_two, board_at 0)).
Proof.
  split; [reflexivity|].
  destruct (full_table_refuses_registration 1 2 (-1) 16 ltac:(lia)
              table_of_two (board_at 0)) as (_ & _ & _ & Hosc & _).
  - reflexivity.
  - intros [|[|j]] e He; cbn in He; [| |done]; by injection He as <-.
  - by vm_compute.
  - exact (Hosc 13 500 1 30000).
Defined.

Lemma stop_twice_witness :
  exists t1,
    stop (-2) 0 table_with_gap = Done (-2, t1) /\
    stop (-2) 0 t1 = Done (-2, t1).
Proof.
  eexists. split; [vm_compute; reflexivity|].
  apply (stop_twice_is_stop_once (-2) table_with_gap 0 (-2)).
  vm_compute; reflexivity.
Defined.

Lemma stopped_slot_reused_witness :
  exists t1,
    stop (-2) 1 table_of_two = Done (-2, t1) /\
    findFreeEventIndex (-1) t1 = Done 1.
Proof.
  eexists. split; [vm_compute; reflexivity|].
  match goal with |- findFreeEventIndex _ ?t1 = _ =>
    destruct (stopped_slot_is_reused 1 2 (-1) (-2) 16 ltac:(lia)
                table_of_two 1 (-2) t1 (board_at 0)) as [Hscan _]
  end.
  - reflexivity.
  - by vm_compute.
  - lia.
  - intros m Hm. assert (m = 0%nat) as -> by (vm_compute in Hm; lia).
    exists busy_slot. by vm_compute.
  - vm_compute; reflexivity.
  - exact Hscan.
Defined.

(** A pass over the table of three slots, at a time when slots 0 and 2
    are due, with a callback that stops timer 2: the free slot 1 is as it
    was. *)
Lemma update_free_slot_witness :
  wf table_with_gap /\
  exists t' w',
    update 1 2 (-1) (-2) 16 (callback_7_calls [CallStop 2])
      (table_with_gap, board_at 2000) = Done (t', w') /\
    _events t' !! 1%nat = Some memset_Event.
Proof.
  split; [reflexivity|].
  destruct (update_passes_over_free_slots 1 2 (-1) (-2) 16
              (callback_7_calls [CallStop 2]) table_with_gap (board_at 2000))
    as [Hpass _]; [reflexivity|by vm_compute|].
  destruct Hpass as (t' & w' & Hrun & _ & _ & _ & Hfree).
  { intros cb ctx s. unfold callback_7_calls.
    destruct (cb =? 7); by repeat constructor. }
  exists t', w'. split; [done|]. by apply Hfree.
Defined.

Lemma destructor_witness :
  4 <> 10 /\
  exists w2,
    Timer_destroy 10 (fst (Timer_byte 4 (board_at 0)))
      (snd (Timer_byte 4 (board_at 0))) = Done w2 /\
    released w2 = [0%nat] /\ live w2 = [].
Proof.
  split; [lia|].
  destruct (destructor_releases_sized_table 10 4 (board_at 0))
    as [(w2 & Hrun & _ & _ & Hrel & Hlive) _]; [lia|apply not_elem_of_nil|].
  by exists w2.
Defined.

Lemma oscillate_overflow_witness :
  findFreeEventIndex (-1) table_with_gap = Done 1 /\
  in_int 16 (20000 * 2) = false /\
  oscillate 2 (-1) 16 13 500 1 20000 (table_with_gap, board_at 0) = Undefined.
Proof.
  split; [by vm_compute|]. split; [by vm_compute|].
  destruct (oscillate_defined_iff_count_fits 2 (-1) 16 ltac:(lia)
              13 500 1 20000 table_with_gap (board_at 0) 1
              ltac:(by vm_compute)) as [Hfound _].
  destruct (Hfound ltac:(lia)) as [_ Hover]. apply Hover. by vm_compute.
Defined.

Lemma pulse_pair_witness :
  exists t1 w1 t2,
    pulse 2 (-1) 16 13 500 1 (table_with_gap, board_at 0)
    = Done (1, (t1, w1)) /\
    pulseImmediate 2 (-1) 16 13 500 1 (table_with_gap, board_at 0)
    = Done (1, (t2, w1)).
Proof.
  destruct (pulseImmediate_is_pulse_with_count_one 2 (-1) 16 ltac:(lia)
              13 500 1 table_with_gap (board_at 0) 1
              (mkTimer 3 [busy_slot; mkEvent 2 500 2 13 1 0 0 0 0; busy_slot]
                 StaticArray)
              (mkWorld (fun _ => 0) 1 [DigitalWrite 13 1] 0 [] [])
              ltac:(vm_compute; reflexivity)) as (t2 & Hcall & _).
  eexists _, _, t2. split; [vm_compute; reflexivity|exact Hcall].
Defined.

Lemma register_stop_witness :
  exists t1 w1 t2,
    register 1 2 (-1) 16 (REvery 250 7 3 0) (table_with_gap, board_at 0)
    = Done (1, (t1, w1)) /\
    stop (-2) 1 t1 = Done (-2, t2) /\
    findFreeEventIndex (-1) t2 = Done 1.
Proof.
  destruct (stop_gives_registered_slot_back 1 2 (-1) (-2) 16 ltac:(lia)
              ltac:(lia) (REvery 250 7 3 0) table_with_gap (board_at 0) 1
              (mkTimer 3 [busy_slot; mkEvent 1 250 3 0 0 7 0 0 0; busy_slot]
                 StaticArray)
              (mkWorld (fun _ => 0) 1 [] 0 [] [])
              ltac:(vm_compute; reflexivity) ltac:(lia))
    as (t2 & Hstop & Hscan & _).
  eexists _, _, t2. split; [vm_compute; reflexivity|]. by split.
Defined.

Lemma stop_then_update_witness :
  wf table_of_two /\
  exists t1 t2 w2,
    stop (-2) 0 table_of_two = Done (-2, t1) /\
    update 1 2 (-1) (-2) 16 (callback_7_calls [CallStop 1])
      (t1, board_at 2000) = Done (t2, w2).
Proof.
  split; [reflexivity|].
  destruct (stopped_slot_is_passed_over 1 2 (-1) (-2) 16
              (callback_7_calls [CallStop 1]) table_of_two 0 (-2)
              (mkTimer 2 [mkEvent 0 1000 (-1) 0 0 7 0 0 0; busy_slot]
                 StaticArray) (board_at 2000))
    as (t2 & w2 & e & Hrun & _);
    [reflexivity|by vm_compute|by vm_compute| |vm_compute; reflexivity|].
  { intros cb ctx s. unfold callback_7_calls.
    destruct (cb =? 7); by repeat constructor. }
  eexists _, t2, w2. split; [vm_compute; reflexivity|exact Hrun].
Defined.

Lemma two_registrations_witness :
  exists ids s',
    register_all 1 2 (-1) 16 [REvery 250 7 3 0; RPulse 13 500 1]
      (Timer_byte 2 (board_at 0)) = Done (ids, s') /\
    ids = [0; 1].
Proof.
  eexists _, _. split; [vm_compute; reflexivity|].
  match goal with |- ?ids = _ =>
    destruct (registrations_up_to_capacity 1 2 (-1) 16 ltac:(lia) ltac:(lia)
                ltac:(by vm_compute) ltac:(by vm_compute)
                2 (board_at 0) [REvery 250 7 3 0; RPulse 13 500 1] ids _
                ltac:(lia) ltac:(by vm_compute)
                ltac:(vm_compute; reflexivity)) as [Hids _]
  end.
  exact Hids.
Defined.

Lemma update_overflow_witness :
  wf table_of_128 /\
  update 1 2 (-1) (-2) 16 no_calls (table_of_128, board_at 0) = Undefined.
Proof.
  split; [reflexivity|].
  exact (update_overflow 1 2 (-1) (-2) 16 no_calls table_of_128 (board_at 0)
           ltac:(reflexivity) ltac:(by vm_compute)).
Defined.
